(** * Smart Bus Nepal: vehicle simulator, proximity locator, ETA estimator, fares

    A shallow embedding of the domain logic of the two bus-tracking
    front ends of the repository:

    - [SmartBus]      the interval-timer variant (App.jsx with [setInterval],
                      together with its [fares.js]);
    - [SmartBusNepal] the animation-frame variant (App.jsx with
                      [requestAnimationFrame], Haversine distances and the
                      reverse-fare fallback).

    Conventions of the embedding.

    - A JavaScript number that carries a coordinate, a distance, a progress
      fraction or a time is a real number ([R]): arithmetic is exact, the
      rounding of IEEE doubles, NaN and signed zeros are outside the model.
      [Infinity], which the code uses as the initial minimum, is the [None]
      of an [option R].
    - Array indices and tick counters are integers ([nat] for an index into
      an array, [Z] for a counter).
    - [a[i]] is list lookup; reading a property of [undefined] raises a
      TypeError, which the embedding returns as [None] (or [Throw]).
    - A [while] loop runs on fuel: one unit per execution of the loop body;
      [Diverge] is returned when the fuel is used up before the loop
      condition turns false.
    - An object used as a dictionary is a [gmap] over strings; inherited
      prototype properties are outside the model. *)

From Stdlib Require Import Reals Lra Lia ZArith.
From stdpp Require Import gmap strings list.

(** ** JavaScript helpers *)

Module JS.

(** [Math.ceil] and [Math.round] on reals, from the integer part
    [Int_part] (the floor).  [Math.round] rounds half up: it is
    [floor (x + 0.5)]. *)
Definition ceil (x : R) : Z := (- Int_part (- x))%Z.
Definition round (x : R) : Z := Int_part (x + 0.5).

(** [Math.atan2 y x] on reals (both arguments finite). *)
Definition atan2 (y x : R) : R :=
  if Rlt_dec 0 x then atan (y / x)
  else if Rlt_dec x 0 then
    (if Rle_dec 0 y then atan (y / x) + PI else atan (y / x) - PI)
  else if Rlt_dec 0 y then PI / 2
  else if Rlt_dec y 0 then - (PI / 2)
  else 0.

(** What a call can do: return, raise, or run for ever (fuel used up). *)
Inductive outcome (A : Type) : Type :=
  | Done (a : A)
  | Throw
  | Diverge.
Arguments Done {A} a.
Arguments Throw {A}.
Arguments Diverge {A}.

(** A value read from a numeric table: [None] is [undefined]. *)
Definition truthy (v : option Z) : bool :=
  match v with
  | Some z => negb (z =? 0)%Z
  | None => false
  end.

(** [a || b] *)
Definition or (a b : option Z) : option Z := if truthy a then a else b.

End JS.

Export JS (outcome, Done, Throw, Diverge).

(** ** Shared data *)

(** An entry of [stops.json]. *)
Record Stop : Type := mkStop {
  name : string;
  lat : R;
  lng : R
}.

(** [{lat, lng}], the user's location or a bus position. *)
Record LatLng : Type := mkLatLng {
  pos_lat : R;
  pos_lng : R
}.

(** ** The interval-timer variant *)

Module SmartBus.

(** An element of [busPositions]. *)
Record Bus : Type := mkBus {
  id : string;
  bus_lat : R;
  bus_lng : R;
  index : nat;
  nextIndex : nat;
  progress : R;
  stopTimer : Z
}.

(** The body of the [prev.map(bus => ...)] callback of the 100 ms
    interval.  [from] and [to] are read before anything else; their
    fields are only read on the moving branch, where an index out of
    range raises. *)
Definition tick (stops : list Stop) (bus : Bus) : option Bus :=
  let from := stops !! index bus in
  let to := stops !! nextIndex bus in
  if (stopTimer bus <? 20)%Z then
    Some {| id := id bus; bus_lat := bus_lat bus; bus_lng := bus_lng bus;
            index := index bus; nextIndex := nextIndex bus;
            progress := progress bus; stopTimer := (stopTimer bus + 1)%Z |}
  else
    let newProgress := (progress bus + 0.01)%R in
    let '(newIndex, newNextIndex, newProgress, stopTimer') :=
      if Rge_dec newProgress 1
      then (nextIndex bus, (nextIndex bus + 1) mod length stops, 0%R, 0%Z)
      else (index bus, nextIndex bus, newProgress, stopTimer bus) in
    from ← from;
    to ← to;
    let newLat := (lat from + (lat to - lat from) * newProgress)%R in
    let newLng := (lng from + (lng to - lng from) * newProgress)%R in
    Some {| id := id bus; bus_lat := newLat; bus_lng := newLng;
            index := newIndex; nextIndex := newNextIndex;
            progress := newProgress; stopTimer := stopTimer' |}.

(** [n] firings of the interval on one bus. *)
Fixpoint ticks (n : nat) (stops : list Stop) (bus : Bus) : option Bus :=
  match n with
  | O => Some bus
  | S n' => tick stops bus ≫= ticks n' stops
  end.

(** The invariant of the simulation: what the spec promises of a
    [VehicleState], and indices that point into the stop table. *)
Definition tick_inv (stops : list Stop) (bus : Bus) : Prop :=
  (0 <= progress bus < 1)%R ∧ (0 <= stopTimer bus <= 20)%Z ∧
  index bus < length stops ∧ nextIndex bus < length stops.

(** The linear interpolation the spec asks for: between the stop at
    [index] and the stop at [nextIndex], at [progress]. *)
Definition interpolated (stops : list Stop) (bus : Bus) : option LatLng :=
  from ← stops !! index bus;
  to ← stops !! nextIndex bus;
  Some {| pos_lat := (lat from + (lat to - lat from) * progress bus)%R;
          pos_lng := (lng from + (lng to - lng from) * progress bus)%R |}.

Definition position (bus : Bus) : LatLng :=
  {| pos_lat := bus_lat bus; pos_lng := bus_lng bus |}.

(** The distance of [findNearestStop]. *)
Definition dist (userLocation : LatLng) (stop : Stop) : R :=
  sqrt ((lat stop - pos_lat userLocation) ^ 2
        + (lng stop - pos_lng userLocation) ^ 2).

(** [dist < minDist], where [minDist] starts as [Infinity]. *)
Definition below (d : R) (minDist : option R) : bool :=
  match minDist with
  | None => true
  | Some m => if Rlt_dec d m then true else false
  end.

(** [findNearestStop]: the [forEach] updates the two locals [nearest] and
    [minDist]. *)
Definition findNearestStop (stops : list Stop) (userLocation : option LatLng)
    : option string :=
  match userLocation with
  | None => name <$> stops !! 0
  | Some u =>
      let nearest := stops !! 0 in
      let minDist : option R := None in
      let '(nearest, _) :=
        fold_left
          (fun '(nearest, minDist) stop =>
             let d := dist u stop in
             if below d minDist then (Some stop, Some d)
             else (nearest, minDist))
          stops (nearest, minDist) in
      name <$> nearest
  end.

(** The length of the segment between two stops, as [calculateETA]
    computes it. *)
Definition segment (from to : Stop) : R :=
  sqrt ((lat to - lat from) ^ 2 + (lng to - lng from) ^ 2).

(** The [while] loop of [calculateETA]; [progress] is not touched by it. *)
Fixpoint calculateETA_loop (fuel : nat) (stops : list Stop) (userStop : Stop)
    (distance : R) (index nextIndex : nat) (stopPauseTicks : Z)
    : outcome (R * Z) :=
  match stops !! nextIndex with
  | None => Throw
  | Some nxt =>
      if decide (name nxt ≠ name userStop) then
        match fuel with
        | O => Diverge
        | S fuel' =>
            match stops !! index with
            | None => Throw
            | Some from =>
                calculateETA_loop fuel' stops userStop
                  (distance + segment from nxt)%R
                  nextIndex ((nextIndex + 1) mod length stops)
                  (stopPauseTicks + 20)%Z
            end
        end
      else Done (distance, stopPauseTicks)
  end.

(** [calculateETA(bus, userStop)]; [userStop] is a stop object (the callers
    pass the result of [stops.find] on a name taken from the table). *)
Definition calculateETA (fuel : nat) (stops : list Stop) (bus : Bus)
    (userStop : Stop) : outcome Z :=
  match calculateETA_loop fuel stops userStop 0 (index bus) (nextIndex bus) 0 with
  | Done (distance, stopPauseTicks) =>
      match stops !! index bus, stops !! nextIndex bus with
      | Some from, Some to =>
          let distance := (distance + segment from to * (1 - progress bus))%R in
          let eta := JS.ceil (distance * 100 + IZR stopPauseTicks * 0.1) in
          Done (JS.round (IZR eta))
      | _, _ => Throw
      end
  | Throw => Throw
  | Diverge => Diverge
  end.

(** The lookup of [buyTicket]: [fares[fromStop][destination]]. *)
Definition buyTicket_fare (fares : gmap string (gmap string Z))
    (fromStop destination : string) : outcome (option Z) :=
  match fares !! fromStop with
  | None => Throw
  | Some row => Done (row !! destination)
  end.

(** The updater passed to [setBusETAs] every five seconds: a recomputed
    ETA replaces the shown one when it differs from it (or from 0, when
    nothing is shown yet) by at least one minute.  The ETAs are the
    integers [calculateETA] returns. *)
Definition updateBusETAs (prev newETAs : gmap string Z) : gmap string Z :=
  map_fold
    (fun id eta updated =>
       if decide (1 <= Z.abs (eta - default 0 (prev !! id)))%Z
       then <[id := eta]> updated
       else updated)
    prev newETAs.

(** [stops.find(s => s.name === n)]. *)
Definition findByName (stops : list Stop) (n : string) : option Stop :=
  List.find (fun s => bool_decide (name s = n)) stops.

(** [busPositions.map(bus => calculateETA(bus, stops.find(...)))]: the
    first call that raises or runs on decides the outcome. *)
Fixpoint etasAt (fuel : nat) (stops : list Stop) (fromStop : string)
    (busPositions : list Bus) : outcome (list Z) :=
  match busPositions with
  | [] => Done []
  | bus :: rest =>
      match findByName stops fromStop with
      | None => Throw
      | Some userStop =>
          match calculateETA fuel stops bus userStop with
          | Done eta =>
              match etasAt fuel stops fromStop rest with
              | Done etas => Done (eta :: etas)
              | Throw => Throw
              | Diverge => Diverge
              end
          | Throw => Throw
          | Diverge => Diverge
          end
      end
  end.

(** The object [buyTicket] stores with [setTicket]; [ticket_fare] is
    [undefined] when the row has no entry for the destination. *)
Record Ticket : Type := mkTicket {
  ticket_id : R;
  ticket_from : string;
  ticket_to : string;
  ticket_fare : option Z;
  ticket_eta : list Z
}.

(** [buyTicket]; [now] is the value of [Date.now()]. *)
Definition buyTicket (fuel : nat) (now : R) (stops : list Stop)
    (fares : gmap string (gmap string Z)) (userLocation : option LatLng)
    (destination : string) (busPositions : list Bus) : outcome Ticket :=
  match findNearestStop stops userLocation with
  | None => Throw
  | Some fromStop =>
      match buyTicket_fare fares fromStop destination with
      | Done fare =>
          match etasAt fuel stops fromStop busPositions with
          | Done eta =>
              Done {| ticket_id := now; ticket_from := fromStop;
                      ticket_to := destination; ticket_fare := fare;
                      ticket_eta := eta |}
          | Throw => Throw
          | Diverge => Diverge
          end
      | Throw => Throw
      | Diverge => Diverge
      end
  end.

End SmartBus.

(** ** The animation-frame variant *)

Module SmartBusNepal.

Definition STOP_PAUSE_TIME : R := 120.

(** An element of [buses], with the fields the estimator reads. *)
Record Bus : Type := mkBus {
  id : string;
  currentStopIndex : nat;
  position : LatLng;
  nextStop : option Stop;
  speed : R;
  isAtStop : bool;
  stopArrivalTime : R;
  stops : list string
}.

(** Haversine distance in kilometres. *)
Definition calculateDistance (lat1 lon1 lat2 lon2 : R) : R :=
  let R := 6371%R in
  let dLat := ((lat2 - lat1) * PI / 180)%R in
  let dLon := ((lon2 - lon1) * PI / 180)%R in
  let a := (sin (dLat / 2) * sin (dLat / 2)
            + cos (lat1 * PI / 180) * cos (lat2 * PI / 180)
              * sin (dLon / 2) * sin (dLon / 2))%R in
  let c := (2 * JS.atan2 (sqrt a) (sqrt (1 - a)))%R in
  (R * c)%R.

(** [distance < minDistance], where [minDistance] starts as [Infinity]. *)
Definition below (d : R) (minDistance : option R) : bool :=
  match minDistance with
  | None => true
  | Some m => if Rlt_dec d m then true else false
  end.

(** [findNearestStop]: returns [{...stop, distance}] or [null]. *)
Definition findNearestStop (stopsData : list Stop) (userPos : option LatLng)
    : option (Stop * R) :=
  match userPos with
  | None => None
  | Some u =>
      let nearest : option (Stop * R) := None in
      let minDistance : option R := None in
      let '(nearest, _) :=
        fold_left
          (fun '(nearest, minDistance) stop =>
             let distance :=
               calculateDistance (pos_lat u) (pos_lng u) (lat stop) (lng stop) in
             if below distance minDistance
             then (Some (stop, distance), Some distance)
             else (nearest, minDistance))
          stopsData (nearest, minDistance) in
      nearest
  end.

(** [bus.stops.indexOf(x)]; [None] is [-1]. *)
Fixpoint indexOf (l : list string) (x : string) : option nat :=
  match l with
  | [] => None
  | y :: l' => if decide (y = x) then Some 0 else S <$> indexOf l' x
  end.

(** [stopsData.find(stop => stop.name === n)], where [n] may itself be
    [undefined] (an index past the end of [bus.stops]). *)
Definition findStop (stopsData : list Stop) (n : option string) : option Stop :=
  n ≫= fun n => List.find (fun stop => bool_decide (name stop = n)) stopsData.

(** The [while (currentIndex !== targetStopIndex)] loop. *)
Fixpoint calculateBusETA_loop (fuel : nat) (stopsData : list Stop) (bus : Bus)
    (targetStopIndex : nat) (totalTime : R) (currentIndex : nat)
    : outcome R :=
  if decide (currentIndex ≠ targetStopIndex) then
    match fuel with
    | O => Diverge
    | S fuel' =>
        let currentStop := findStop stopsData (stops bus !! currentIndex) in
        let nextStopIndex := (currentIndex + 1) mod length (stops bus) in
        let nextStop := findStop stopsData (stops bus !! nextStopIndex) in
        let totalTime :=
          match currentStop, nextStop with
          | Some currentStop, Some nextStop =>
              let totalTime := (totalTime + STOP_PAUSE_TIME)%R in
              let distance :=
                calculateDistance (lat currentStop) (lng currentStop)
                                  (lat nextStop) (lng nextStop) in
              (totalTime + distance / speed bus * 3600)%R
          | _, _ => totalTime
          end in
        calculateBusETA_loop fuel' stopsData bus targetStopIndex totalTime
          nextStopIndex
    end
  else Done totalTime.

(** [calculateBusETA]; [now] is the value of [Date.now()]. *)
Definition calculateBusETA (fuel : nat) (now : R) (stopsData : list Stop)
    (bus : Bus) (targetStopName : string) : outcome Z :=
  if decide (targetStopName = "") then Done 0%Z
  else
    match indexOf (stops bus) targetStopName with
    | None => Done 0%Z
    | Some targetStopIndex =>
        let totalTime := 0%R in
        let currentIndex := currentStopIndex bus in
        let start : outcome (R * nat) :=
          if isAtStop bus then
            let timeAtStop := ((now - stopArrivalTime bus) / 1000)%R in
            let remainingPauseTime := Rmax 0 (STOP_PAUSE_TIME - timeAtStop) in
            Done ((totalTime + remainingPauseTime)%R, currentIndex)
          else
            let currentStop := findStop stopsData (stops bus !! currentIndex) in
            let next := (currentIndex + 1) mod length (stops bus) in
            match currentStop with
            | Some _ =>
                match nextStop bus with
                | None => Throw
                | Some nxt =>
                    let distance :=
                      calculateDistance (pos_lat (position bus))
                                        (pos_lng (position bus))
                                        (lat nxt) (lng nxt) in
                    Done ((totalTime + distance / speed bus * 3600)%R, next)
                end
            | None => Done (totalTime, next)
            end in
        match start with
        | Done (totalTime, currentIndex) =>
            match calculateBusETA_loop fuel stopsData bus targetStopIndex
                    totalTime currentIndex with
            | Done totalTime => Done (JS.round (totalTime / 60))
            | Throw => Throw
            | Diverge => Diverge
            end
        | Throw => Throw
        | Diverge => Diverge
        end
    end.

(** [calculateFare]: [faresData[fromStop]?.[toStop] ||
    faresData[toStop]?.[fromStop] || 0]. *)
Definition calculateFare (faresData : gmap string (gmap string Z))
    (fromStop toStop : string) : option Z :=
  if decide (fromStop = "" ∨ toStop = "") then Some 0%Z
  else
    JS.or (JS.or (faresData !! fromStop ≫= (.!! toStop))
                 (faresData !! toStop ≫= (.!! fromStop)))
          (Some 0%Z).

(** A bus together with its occupancy, the other field the frame update
    writes ([route], [routeId] and [color] are carried along untouched). *)
Record Vehicle : Type := mkVehicle {
  bus : Bus;
  occupancy : R
}.

(** The body of the [prevBuses.map(bus => ...)] callback of
    [updateBusPositions]: [currentTime] is [Date.now()], [deltaTime] the
    seconds since the previous frame, [random] the value of
    [Math.random()] drawn on arrival.  A division by a zero
    [totalDistance] (two stops at the same place) is outside the model. *)
Definition updateBus (currentTime deltaTime random : R)
    (stopsData : list Stop) (v : Vehicle) : Vehicle :=
  let b := bus v in
  if isAtStop b then
    let timeAtStop := ((currentTime - stopArrivalTime b) / 1000)%R in
    if Rge_dec timeAtStop STOP_PAUSE_TIME then
      let currentStopIndex' := (currentStopIndex b + 1) mod length (stops b) in
      let nextStopIndex := (currentStopIndex' + 1) mod length (stops b) in
      {| bus := {| id := id b; currentStopIndex := currentStopIndex';
                   position := position b;
                   nextStop := findStop stopsData (stops b !! nextStopIndex);
                   speed := speed b; isAtStop := false;
                   stopArrivalTime := stopArrivalTime b; stops := stops b |};
         occupancy := occupancy v |}
    else v
  else
    match findStop stopsData (stops b !! currentStopIndex b), nextStop b with
    | Some currentStop, Some targetStop =>
        let distance :=
          calculateDistance (pos_lat (position b)) (pos_lng (position b))
                            (lat targetStop) (lng targetStop) in
        if Rlt_dec distance 0.1 then
          {| bus := {| id := id b; currentStopIndex := currentStopIndex b;
                       position := {| pos_lat := lat targetStop;
                                      pos_lng := lng targetStop |};
                       nextStop := nextStop b;
                       speed := speed b; isAtStop := true;
                       stopArrivalTime := currentTime; stops := stops b |};
             occupancy :=
               Rmax 10 (Rmin 100 (occupancy v + (random * 20 - 10))) |}
        else
          let speed' := (speed b / 3600)%R in
          let moveDistance := (speed' * deltaTime)%R in
          let totalDistance :=
            calculateDistance (lat currentStop) (lng currentStop)
                              (lat targetStop) (lng targetStop) in
          let ratio := (moveDistance / totalDistance)%R in
          {| bus := {| id := id b; currentStopIndex := currentStopIndex b;
                       position :=
                         {| pos_lat := (pos_lat (position b)
                                        + (lat targetStop - pos_lat (position b))
                                          * ratio)%R;
                            pos_lng := (pos_lng (position b)
                                        + (lng targetStop - pos_lng (position b))
                                          * ratio)%R |};
                       nextStop := nextStop b;
                       speed := speed b; isAtStop := false;
                       stopArrivalTime := stopArrivalTime b; stops := stops b |};
             occupancy := occupancy v |}
    | _, _ => v
    end.

End SmartBusNepal.

(** ** The tax estimator *)

Module TaxEase.

(** [calculateTax]: the slabs of FY 2080/81. *)
Definition calculateTax (income : R) : Z :=
  let tax :=
    if Rle_dec income 500000 then (income * 0.01)%R
    else if Rle_dec income 1000000 then (5000 + (income - 500000) * 0.10)%R
    else if Rle_dec income 2000000 then (55000 + (income - 1000000) * 0.20)%R
    else (255000 + (income - 2000000) * 0.30)%R in
  JS.round tax.

(** [calculatePenalty]: 0.1% of the tax due per day. *)
Definition calculatePenalty (taxDue daysLate : R) : Z :=
  let dailyRate := 0.001%R in
  JS.round (taxDue * dailyRate * daysLate).

(** What [handleSimulate] of the penalty simulator stores. *)
Definition handleSimulate (income daysLate : R) : Z :=
  let taxDue := calculateTax income in
  calculatePenalty (IZR taxDue) daysLate.

End TaxEase.

(** ** Sample data *)

Module Examples.

Import SmartBus.

(** The three-stop loop of the spec's examples. *)
Definition stopsABC : list Stop :=
  [mkStop "A" 0 0; mkStop "B" 0 1; mkStop "C" 1 1].

(** Bus "A" as [useState] creates it: at the first stop, about to dwell. *)
Definition busStart : Bus :=
  {| id := "A"; bus_lat := 0; bus_lng := 0; index := 0; nextIndex := 1;
     progress := 0; stopTimer := 0 |}.

(** The same bus one tick before it reaches "B". *)
Definition busArriving : Bus :=
  {| id := "A"; bus_lat := 0; bus_lng := 0.99; index := 0; nextIndex := 1;
     progress := 0.99; stopTimer := 20 |}.

(** The same bus in the middle of a dwell. *)
Definition busDwelling : Bus :=
  {| id := "A"; bus_lat := 0; bus_lng := 0; index := 0; nextIndex := 1;
     progress := 0; stopTimer := 7 |}.

(** A loop with city-scale spacing: a hundredth of a degree per segment. *)
Definition stopsCity : list Stop :=
  [mkStop "A" 0 0; mkStop "B" 0 0.01; mkStop "C" 0.01 0.01].

(** A bus half way between "A" and "B", moving. *)
Definition busHalfway : Bus :=
  {| id := "A"; bus_lat := 0; bus_lng := 0.005; index := 0; nextIndex := 1;
     progress := 0.5; stopTimer := 20 |}.

(** The same bus one tick later. *)
Definition busHalfwayNext : Bus :=
  {| id := "A"; bus_lat := 0; bus_lng := 0.0051; index := 0; nextIndex := 1;
     progress := 0.51; stopTimer := 20 |}.

(** A two-stop shuttle, and a bus one tick before it reaches "B". *)
Definition stopsPair : list Stop := [mkStop "A" 0 0; mkStop "B" 0 0.01].

Definition busPairArriving : Bus :=
  {| id := "A"; bus_lat := 0; bus_lng := 0.0099; index := 0; nextIndex := 1;
     progress := 0.99; stopTimer := 20 |}.

Definition busPairArrived : Bus :=
  {| id := "A"; bus_lat := 0; bus_lng := 0; index := 1; nextIndex := 0;
     progress := 0; stopTimer := 0 |}.


(** A stop that is not on the three-stop loop. *)
Definition stopElsewhere : Stop := mkStop "Z" 5 5.

(** A bus of the animation-frame variant, waiting at "A" on the loop
    A, B, C. *)
Definition busRing : SmartBusNepal.Bus :=
  {| SmartBusNepal.id := "Bus-001";
     SmartBusNepal.currentStopIndex := 0;
     SmartBusNepal.position := {| pos_lat := 0; pos_lng := 0 |};
     SmartBusNepal.nextStop := Some (mkStop "B" 0 1);
     SmartBusNepal.speed := 25;
     SmartBusNepal.isAtStop := true;
     SmartBusNepal.stopArrivalTime := 0;
     SmartBusNepal.stops := ["A"; "B"; "C"] |}.

(** The fare table of the spec's example, [{A: {B: 15}}]. *)
Definition faresAB : gmap string (gmap string Z) :=
  {[ "A" := {[ "B" := 15%Z ]} ]}.

(** A table with a free ride in one direction:
    [{A: {B: 0}, B: {A: 15}}]. *)
Definition faresFree : gmap string (gmap string Z) :=
  {[ "A" := {[ "B" := 0%Z ]}; "B" := {[ "A" := 15%Z ]} ]}.

(** A fare table with a row for each stop of the three-stop loop. *)
Definition faresABC : gmap string (gmap string Z) :=
  {[ "A" := {[ "B" := 15%Z; "C" := 25%Z ]};
     "B" := {[ "A" := 15%Z; "C" := 20%Z ]};
     "C" := {[ "A" := 25%Z; "B" := 20%Z ]} ]}.

(** The target "C" of the three-stop loop, put somewhere else. *)
Definition stopMoved : Stop := mkStop "C" 7 7.

(** The waiting bus with its occupancy, and a bus that has reached "B"
    but is still marked as moving. *)
Definition vehicleRing : SmartBusNepal.Vehicle :=
  {| SmartBusNepal.bus := busRing; SmartBusNepal.occupancy := 50 |}.

Definition vehicleReaching : SmartBusNepal.Vehicle :=
  {| SmartBusNepal.bus :=
       {| SmartBusNepal.id := "Bus-002";
          SmartBusNepal.currentStopIndex := 0;
          SmartBusNepal.position := {| pos_lat := 0; pos_lng := 1 |};
          SmartBusNepal.nextStop := Some (mkStop "B" 0 1);
          SmartBusNepal.speed := 25;
          SmartBusNepal.isAtStop := false;
          SmartBusNepal.stopArrivalTime := 0;
          SmartBusNepal.stops := ["A"; "B"; "C"] |};
     SmartBusNepal.occupancy := 50 |}.

End Examples.

(** * Properties *)

(** ** Rounding *)

Section Rounding.

Local Open Scope R_scope.

(** [Int_part] is the integer [z] with [z <= x < z + 1]. *)
Lemma Int_part_spec (x : R) (z : Z) :
  IZR z <= x < IZR z + 1 → Int_part x = z.
Proof.
  intros [Hlo Hhi]. unfold Int_part.
  assert (up x = (z + 1)%Z) as ->; [|lia].
  symmetry. apply tech_up; rewrite plus_IZR; lra.
Qed.

Lemma Int_part_bounds (x : R) : IZR (Int_part x) <= x < IZR (Int_part x) + 1.
Proof.
  unfold Int_part. rewrite minus_IZR.
  destruct (archimed x) as [H1 H2]. lra.
Qed.

Lemma Int_part_mono (x y : R) : x <= y → (Int_part x <= Int_part y)%Z.
Proof.
  intros Hxy.
  pose proof (Int_part_bounds x) as [Hx _].
  pose proof (Int_part_bounds y) as [_ Hy].
  assert (IZR (Int_part x) < IZR (Int_part y + 1)) as H%lt_IZR;
    [rewrite plus_IZR; lra | lia].
Qed.

Lemma ceil_spec (x : R) (z : Z) : IZR z - 1 < x <= IZR z → JS.ceil x = z.
Proof.
  intros [Hlo Hhi]. unfold JS.ceil.
  rewrite (Int_part_spec (- x) (- z)); [lia|].
  rewrite opp_IZR. lra.
Qed.

Lemma ceil_mono (x y : R) : x <= y → (JS.ceil x <= JS.ceil y)%Z.
Proof.
  intros Hxy. unfold JS.ceil.
  assert (Int_part (- y) <= Int_part (- x))%Z; [|lia].
  apply Int_part_mono. lra.
Qed.

Lemma round_IZR (z : Z) : JS.round (IZR z) = z.
Proof. unfold JS.round. apply Int_part_spec. lra. Qed.

End Rounding.

(** ** The vehicle simulator *)

Section Simulator.

Import SmartBus.

Variable stops : list Stop.

(** The three branches of the tick, as equations. *)

Lemma tick_dwell (bus : Bus) :
  (stopTimer bus < 20)%Z →
  tick stops bus =
    Some {| id := id bus; bus_lat := bus_lat bus; bus_lng := bus_lng bus;
            index := index bus; nextIndex := nextIndex bus;
            progress := progress bus; stopTimer := (stopTimer bus + 1)%Z |}.
Proof.
  intros Hlt. unfold tick.
  destruct (Z.ltb_spec (stopTimer bus) 20); [done | lia].
Qed.

Lemma tick_move (bus : Bus) (from to : Stop) :
  stops !! index bus = Some from →
  stops !! nextIndex bus = Some to →
  (20 <= stopTimer bus)%Z →
  (progress bus + 0.01 < 1)%R →
  tick stops bus =
    Some {| id := id bus;
            bus_lat := (lat from + (lat to - lat from) * (progress bus + 0.01))%R;
            bus_lng := (lng from + (lng to - lng from) * (progress bus + 0.01))%R;
            index := index bus; nextIndex := nextIndex bus;
            progress := (progress bus + 0.01)%R; stopTimer := stopTimer bus |}.
Proof.
  intros Hfrom Hto Hst Hp. unfold tick.
  destruct (Z.ltb_spec (stopTimer bus) 20); [lia|].
  destruct (Rge_dec _ _); [lra|].
  rewrite Hfrom, Hto. done.
Qed.

Lemma tick_wrap (bus : Bus) (from to : Stop) :
  stops !! index bus = Some from →
  stops !! nextIndex bus = Some to →
  (20 <= stopTimer bus)%Z →
  (progress bus + 0.01 >= 1)%R →
  tick stops bus =
    Some {| id := id bus;
            bus_lat := (lat from + (lat to - lat from) * 0)%R;
            bus_lng := (lng from + (lng to - lng from) * 0)%R;
            index := nextIndex bus;
            nextIndex := (nextIndex bus + 1) mod length stops;
            progress := 0%R; stopTimer := 0%Z |}.
Proof.
  intros Hfrom Hto Hst Hp. unfold tick.
  destruct (Z.ltb_spec (stopTimer bus) 20); [lia|].
  destruct (Rge_dec _ _); [|lra].
  rewrite Hfrom, Hto. done.
Qed.

(** A bus that has just wrapped sits still for the next twenty ticks. *)
Lemma ticks_dwell (k : nat) (bus : Bus) :
  (stopTimer bus + Z.of_nat k <= 20)%Z →
  ticks k stops bus =
    Some {| id := id bus; bus_lat := bus_lat bus; bus_lng := bus_lng bus;
            index := index bus; nextIndex := nextIndex bus;
            progress := progress bus;
            stopTimer := (stopTimer bus + Z.of_nat k)%Z |}.
Proof.
  revert bus. induction k as [|k IH]; intros bus Hk.
  - simpl. f_equal. destruct bus; simpl. f_equal. lia.
  - cbn [ticks]. rewrite tick_dwell by lia. cbn [mbind option_bind].
    rewrite IH by (simpl; lia). simpl. do 2 f_equal. lia.
Qed.

Lemma tick_inv_step (bus : Bus) :
  tick_inv stops bus → ∃ bus', tick stops bus = Some bus' ∧ tick_inv stops bus'.
Proof.
  intros (Hp & Hst & Hi & Hn).
  destruct (lookup_lt_is_Some_2 _ _ Hi) as [from Hfrom].
  destruct (lookup_lt_is_Some_2 _ _ Hn) as [to Hto].
  destruct (Z_lt_dec (stopTimer bus) 20) as [Hd|Hd].
  - eexists. split; [by apply tick_dwell|].
    repeat split; simpl; try done; try lia; lra.
  - destruct (Rge_dec (progress bus + 0.01) 1) as [Hw|Hw].
    + eexists. split; [by eapply tick_wrap; [..|lia|]|].
      repeat split; simpl; try done; try lia; try lra.
      apply Nat.mod_upper_bound. lia.
    + eexists. split; [by eapply tick_move; [..|lia|lra]|].
      repeat split; simpl; try done; try lia; lra.
Qed.

Lemma ticks_inv (n : nat) (bus : Bus) :
  tick_inv stops bus →
  ∃ bus', ticks n stops bus = Some bus' ∧ tick_inv stops bus'.
Proof.
  revert bus. induction n as [|n IH]; intros bus Hinv.
  - by exists bus.
  - destruct (tick_inv_step bus Hinv) as (bus1 & Hstep & Hinv1).
    destruct (IH bus1 Hinv1) as (bus' & Hrun & Hinv').
    exists bus'. split; [|done].
    cbn [ticks]. by rewrite Hstep.
Qed.

(** C1.  On a route of at least two stops, a bus that starts with
    [progress = 0] and [stopTimer = 0] (and indices that point into the
    stop table) can be ticked any number [n] of times, and after those
    [n] ticks its progress lies in [0,1) and its dwell counter is
    between 0 and the dwell constant 20. *)
Theorem progress_and_dwell_bounded (bus : Bus) (n : nat) :
  2 <= length stops →
  index bus < length stops →
  nextIndex bus < length stops →
  progress bus = 0%R →
  stopTimer bus = 0%Z →
  ∃ bus', ticks n stops bus = Some bus' ∧
          (0 <= progress bus' < 1)%R ∧ (0 <= stopTimer bus' <= 20)%Z.
Proof.
  intros _ Hi Hn Hp Hst.
  destruct (ticks_inv n bus) as (bus' & Hrun & Hpr & Hdw & _).
  { repeat split; try done; try lia; lra. }
  by exists bus'.
Qed.

(** C6.  A tick on a bus that is not dwelling and whose advanced
    progress [progress + 0.01] reaches 1 moves [index] to the old
    [nextIndex], [nextIndex] to [(nextIndex + 1) mod stops.length], and
    resets [progress] and [stopTimer] to 0. *)
Theorem tick_wrap_advances (bus : Bus) :
  index bus < length stops →
  nextIndex bus < length stops →
  (20 <= stopTimer bus)%Z →
  (progress bus + 0.01 >= 1)%R →
  ∃ bus', tick stops bus = Some bus' ∧
          index bus' = nextIndex bus ∧
          nextIndex bus' = (nextIndex bus + 1) mod length stops ∧
          progress bus' = 0%R ∧
          stopTimer bus' = 0%Z.
Proof.
  intros Hi Hn Hst Hp.
  destruct (lookup_lt_is_Some_2 _ _ Hi) as [from Hfrom].
  destruct (lookup_lt_is_Some_2 _ _ Hn) as [to Hto].
  eexists. split; [by eapply tick_wrap|]. done.
Qed.

(** C7.  A tick on a dwelling bus ([stopTimer < 20]) adds exactly 1 to
    [stopTimer] and leaves id, position, progress and both indices as
    they were. *)
Theorem tick_dwelling_frame (bus : Bus) :
  (stopTimer bus < 20)%Z →
  ∃ bus', tick stops bus = Some bus' ∧
          stopTimer bus' = (stopTimer bus + 1)%Z ∧
          id bus' = id bus ∧
          bus_lat bus' = bus_lat bus ∧
          bus_lng bus' = bus_lng bus ∧
          progress bus' = progress bus ∧
          index bus' = index bus ∧
          nextIndex bus' = nextIndex bus.
Proof.
  intros Hlt. eexists. split; [by apply tick_dwell|]. done.
Qed.

(** C9.  On the tick in which the progress wraps, the new position is
    the interpolation at 0 over the segment the bus has just finished,
    that is the stop at the old [index]; the bus keeps that position for
    each of the twenty dwelling ticks that follow. *)
Theorem wrap_position_is_departed_stop (bus : Bus) (from : Stop) :
  stops !! index bus = Some from →
  nextIndex bus < length stops →
  (20 <= stopTimer bus)%Z →
  (progress bus + 0.01 >= 1)%R →
  ∃ bus', tick stops bus = Some bus' ∧
          index bus' = nextIndex bus ∧
          position bus' = {| pos_lat := lat from; pos_lng := lng from |} ∧
          ∀ k, k <= 20 →
            ∃ bus'', ticks k stops bus' = Some bus'' ∧
                     index bus'' = nextIndex bus ∧
                     position bus'' = position bus'.
Proof.
  intros Hfrom Hn Hst Hp.
  destruct (lookup_lt_is_Some_2 _ _ Hn) as [to Hto].
  eexists. split; [by eapply tick_wrap|].
  split; [done|]. split.
  - unfold position; simpl. f_equal; lra.
  - intros k Hk. eexists. split; [apply ticks_dwell; simpl; lia|]. done.
Qed.

End Simulator.

Section SimulatorRuns.

Import SmartBus.

Variable stops : list Stop.

Lemma ticks_app (a b : nat) (bus : Bus) :
  ticks (a + b) stops bus = ticks a stops bus ≫= ticks b stops.
Proof.
  revert bus. induction a as [|a IH]; intros bus; [done|].
  cbn [ticks Nat.add]. destruct (tick stops bus) as [bus1|]; [|done].
  cbn [mbind option_bind]. apply IH.
Qed.

(** [k + 1] moving ticks that stay short of the next stop. *)
Lemma ticks_move (k : nat) (bus : Bus) (from to : Stop) :
  stops !! index bus = Some from →
  stops !! nextIndex bus = Some to →
  (20 <= stopTimer bus)%Z →
  (progress bus + INR (S k) * 0.01 < 1)%R →
  ticks (S k) stops bus =
    Some {| id := id bus;
            bus_lat := (lat from + (lat to - lat from)
                                   * (progress bus + INR (S k) * 0.01))%R;
            bus_lng := (lng from + (lng to - lng from)
                                   * (progress bus + INR (S k) * 0.01))%R;
            index := index bus; nextIndex := nextIndex bus;
            progress := (progress bus + INR (S k) * 0.01)%R;
            stopTimer := stopTimer bus |}.
Proof.
  revert bus. induction k as [|k IH]; intros bus Hfrom Hto Hst Hp.
  - cbn [ticks]. rewrite (tick_move stops bus from to) by (simpl in Hp; done || lra).
    cbn [mbind option_bind]. simpl. do 2 f_equal; lra.
  - pose proof (pos_INR (S k)) as Hk.
    rewrite (S_INR (S k)) in Hp.
    change (ticks (S (S k)) stops bus) with (tick stops bus ≫= ticks (S k) stops).
    rewrite (tick_move stops bus from to) by (done || lra).
    cbn [mbind option_bind].
    rewrite IH
      by (cbn [id bus_lat bus_lng index nextIndex progress stopTimer];
          done || lra).
    cbn [id bus_lat bus_lng index nextIndex progress stopTimer].
    rewrite (S_INR (S k)). do 2 f_equal; lra.
Qed.

End SimulatorRuns.

Section SimulatorExamples.

Import SmartBus Examples.

Lemma INR_99 : INR 99 = 99%R.
Proof. rewrite INR_IZR_INZ. done. Qed.

(** The run of bus "A" on the three-stop loop up to its first arrival:
    twenty dwelling ticks and ninety-nine moving ticks. *)
Lemma busStart_arrives : ticks 119 stopsABC busStart = Some busArriving.
Proof.
  change 119 with (20 + 99).
  rewrite ticks_app, ticks_dwell by (simpl; lia).
  cbn [mbind option_bind].
  rewrite (ticks_move stopsABC 98 _ (mkStop "A" 0 0) (mkStop "B" 0 1));
    cbn [id bus_lat bus_lng index nextIndex progress stopTimer busStart];
    rewrite ?INR_99; try done; try lia; try lra.
  unfold busArriving. cbn [lat lng]. do 2 f_equal; lra.
Qed.

(** C5.  One hundred and twenty ticks after the start, bus "A" of the
    three-stop loop has [index = 1] and [progress = 0], so the
    interpolation between its current and next stop is the position of
    stop "B", (0, 1); the position the tick stored is that of stop "A",
    (0, 0). *)
Theorem arrival_position_lags_one_stop :
  ∃ bus', ticks 120 stopsABC busStart = Some bus' ∧
          index bus' = 1 ∧ nextIndex bus' = 2 ∧ progress bus' = 0%R ∧
          interpolated stopsABC bus' = Some (mkLatLng 0 1) ∧
          position bus' = mkLatLng 0 0 ∧
          Some (position bus') ≠ interpolated stopsABC bus'.
Proof.
  change 120 with (119 + 1).
  rewrite ticks_app, busStart_arrives. cbn [mbind option_bind ticks].
  rewrite (tick_wrap stopsABC _ (mkStop "A" 0 0) (mkStop "B" 0 1));
    [|done|done|simpl; lia|simpl; lra].
  eexists. split; [done|].
  assert (interpolated stopsABC
            {| id := id busArriving;
               bus_lat := (lat (mkStop "A" 0 0)
                           + (lat (mkStop "B" 0 1) - lat (mkStop "A" 0 0)) * 0)%R;
               bus_lng := (lng (mkStop "A" 0 0)
                           + (lng (mkStop "B" 0 1) - lng (mkStop "A" 0 0)) * 0)%R;
               index := nextIndex busArriving;
               nextIndex := (nextIndex busArriving + 1) mod length stopsABC;
               progress := 0; stopTimer := 0 |} = Some (mkLatLng 0 1)) as Hint.
  { unfold interpolated. simpl. f_equal. f_equal; lra. }
  rewrite Hint. unfold position. cbn [bus_lat bus_lng lat lng].
  repeat split; try done.
  - f_equal; lra.
  - intros [= H1 H2]. lra.
Qed.

Lemma progress_and_dwell_bounded_witness :
  ∃ bus', ticks 120 stopsABC busStart = Some bus' ∧
          (0 <= progress bus' < 1)%R ∧ (0 <= stopTimer bus' <= 20)%Z.
Proof.
  apply (progress_and_dwell_bounded stopsABC busStart 120);
    simpl; done || lia.
Defined.

Lemma tick_wrap_advances_witness :
  ∃ bus', tick stopsABC busArriving = Some bus' ∧
          index bus' = 1 ∧ nextIndex bus' = 2 ∧
          progress bus' = 0%R ∧ stopTimer bus' = 0%Z.
Proof.
  apply (tick_wrap_advances stopsABC busArriving); simpl; lia || lra.
Defined.

Lemma tick_dwelling_frame_witness :
  ∃ bus', tick stopsABC busDwelling = Some bus' ∧
          stopTimer bus' = 8%Z ∧
          id bus' = "A" ∧
          bus_lat bus' = 0%R ∧
          bus_lng bus' = 0%R ∧
          progress bus' = 0%R ∧
          index bus' = 0 ∧
          nextIndex bus' = 1.
Proof.
  apply (tick_dwelling_frame stopsABC busDwelling). simpl. lia.
Defined.

Lemma wrap_position_is_departed_stop_witness :
  ∃ bus', tick stopsABC busArriving = Some bus' ∧
          index bus' = 1 ∧
          position bus' = {| pos_lat := 0; pos_lng := 0 |} ∧
          ∀ k, k <= 20 →
            ∃ bus'', ticks k stopsABC bus' = Some bus'' ∧
                     index bus'' = 1 ∧
                     position bus'' = position bus'.
Proof.
  apply (wrap_position_is_departed_stop stopsABC busArriving (mkStop "A" 0 0));
    simpl; done || lia || lra.
Defined.

End SimulatorExamples.

(** ** Fares *)

Section Fares.

Import SmartBusNepal.

Variable faresData : gmap string (gmap string Z).

(** [a || b || 0] by cases on the two entries. *)
Lemma or_or_zero (a b : option Z) :
  JS.or (JS.or a b) (Some 0%Z) =
    Some (match a, b with
          | Some x, Some y => if decide (x = 0%Z) then y else x
          | Some x, None => x
          | None, Some y => y
          | None, None => 0%Z
          end).
Proof.
  unfold JS.or, JS.truthy.
  destruct a as [x|]; [destruct (Z.eqb_spec x 0) as [->|Hx]|]; simpl.
  - destruct b as [y|]; [destruct (Z.eqb_spec y 0) as [->|Hy]|]; done.
  - destruct (Z.eqb_spec x 0); [done|].
    destruct b; [rewrite decide_False|]; done.
  - destruct b as [y|]; [destruct (Z.eqb_spec y 0) as [->|Hy]|]; done.
Qed.

Lemma calculateFare_unfold (fromStop toStop : string) :
  fromStop ≠ "" → toStop ≠ "" →
  calculateFare faresData fromStop toStop =
    JS.or (JS.or (faresData !! fromStop ≫= (.!! toStop))
                 (faresData !! toStop ≫= (.!! fromStop)))
          (Some 0%Z).
Proof.
  intros Hf Ht. unfold calculateFare.
  rewrite decide_False; [done | tauto].
Qed.

(** C4, as the code has it.  For two non-empty stop names,
    [calculateFare] returns the direct entry when it is present and not 0,
    otherwise the reverse entry when that is present and not 0, otherwise
    0; it returns 0 only when each direction is absent or 0. *)
Theorem calculateFare_fallback (fromStop toStop : string) :
  fromStop ≠ "" → toStop ≠ "" →
  let direct := faresData !! fromStop ≫= (.!! toStop) in
  let reverse := faresData !! toStop ≫= (.!! fromStop) in
  (∀ v, direct = Some v → v ≠ 0%Z →
        calculateFare faresData fromStop toStop = Some v) ∧
  (direct = None ∨ direct = Some 0%Z →
   ∀ v, reverse = Some v → v ≠ 0%Z →
        calculateFare faresData fromStop toStop = Some v) ∧
  (direct = None ∨ direct = Some 0%Z →
   reverse = None ∨ reverse = Some 0%Z →
   calculateFare faresData fromStop toStop = Some 0%Z) ∧
  (calculateFare faresData fromStop toStop = Some 0%Z →
   (direct = None ∨ direct = Some 0%Z) ∧
   (reverse = None ∨ reverse = Some 0%Z)).
Proof.
  intros Hf Ht direct reverse.
  rewrite calculateFare_unfold, or_or_zero by done.
  fold direct reverse.
  destruct direct as [x|], reverse as [y|];
    try destruct (decide (x = 0%Z));
    repeat split; intros; simplify_eq; intuition congruence.
Qed.

(** C10.  A direct entry that is 0 counts as absent: when
    [fares[from][to]] is 0 and [fares[to][from]] is not, [calculateFare]
    returns the reverse fare. *)
Theorem zero_fare_falls_back (fromStop toStop : string) (v : Z) :
  fromStop ≠ "" → toStop ≠ "" →
  faresData !! fromStop ≫= (.!! toStop) = Some 0%Z →
  faresData !! toStop ≫= (.!! fromStop) = Some v →
  v ≠ 0%Z →
  calculateFare faresData fromStop toStop = Some v.
Proof.
  intros Hf Ht Hdirect Hreverse Hv.
  rewrite calculateFare_unfold, or_or_zero, Hdirect, Hreverse by done.
  by rewrite decide_True.
Qed.

End Fares.

Section FareExamples.

Import SmartBusNepal Examples.

Lemma faresAB_direct : faresAB !! "A" ≫= (.!! "B") = Some 15%Z.
Proof. done. Qed.

Lemma faresAB_reverse : faresAB !! "B" ≫= (.!! "A") = None.
Proof. done. Qed.

Lemma faresFree_direct : faresFree !! "A" ≫= (.!! "B") = Some 0%Z.
Proof. done. Qed.

Lemma faresFree_reverse : faresFree !! "B" ≫= (.!! "A") = Some 15%Z.
Proof. done. Qed.

(** The spec's example: with [{A: {B: 15}}], the fare from B to A is 15,
    found by the fallback. *)
Lemma calculateFare_example : calculateFare faresAB "B" "A" = Some 15%Z.
Proof.
  rewrite calculateFare_unfold, or_or_zero, faresAB_direct, faresAB_reverse;
    done.
Qed.

(** C4, as the claim has it, fails: the direct entry from A to B is
    present (it is 0), and [calculateFare] returns the reverse entry 15.
    The ticket purchase of the interval-timer variant has no fallback at
    all: on [{A: {B: 15}}] the lookup from B to A raises. *)
Lemma calculateFare_direct_entry_skipped :
  faresFree !! "A" ≫= (.!! "B") = Some 0%Z ∧
  calculateFare faresFree "A" "B" = Some 15%Z ∧
  calculateFare faresFree "A" "B" ≠ faresFree !! "A" ≫= (.!! "B") ∧
  SmartBus.buyTicket_fare faresAB "B" "A" = Throw.
Proof.
  assert (calculateFare faresFree "A" "B" = Some 15%Z) as Hfare.
  { rewrite calculateFare_unfold, or_or_zero, faresFree_direct,
      faresFree_reverse; done. }
  rewrite Hfare, faresFree_direct. done.
Qed.

Lemma calculateFare_fallback_witness :
  calculateFare faresAB "B" "A" = Some 15%Z.
Proof.
  refine (proj1 (proj2 (calculateFare_fallback faresAB "B" "A" _ _)) _ 15%Z _ _);
    done || (by left).
Defined.

Lemma zero_fare_falls_back_witness :
  calculateFare faresFree "A" "B" = Some 15%Z.
Proof.
  apply (zero_fare_falls_back faresFree "A" "B" 15); done.
Defined.

End FareExamples.

(** ** The proximity locator *)

Section Nearest.

Local Open Scope R_scope.

(** Both variants run the same scan: keep the current best and its
    distance, replace them when a stop is strictly closer. [d] is the
    distance to the user, [mk] builds what the variant keeps of the stop,
    [init] is the value [nearest] has before the scan. *)
Context {B : Type} (d : Stop → R) (mk : Stop → R → B) (init : option B).

Lemma scan_first_minimum (stops : list Stop) :
  stops ≠ [] →
  ∃ (i : nat) (s : Stop),
    stops !! i = Some s ∧
    fold_left
      (fun '(nearest, minDist) stop =>
         if SmartBus.below (d stop) minDist
         then (Some (mk stop (d stop)), Some (d stop))
         else (nearest, minDist))
      stops (init, None) = (Some (mk s (d s)), Some (d s)) ∧
    (∀ (j : nat) (s' : Stop), stops !! j = Some s' → d s <= d s') ∧
    (∀ (j : nat) (s' : Stop), (j < i)%nat → stops !! j = Some s' → d s < d s').
Proof.
  induction stops as [|x l IH] using rev_ind; [done|]. intros _.
  rewrite fold_left_app. cbn [fold_left].
  destruct (decide (l = [])) as [->|Hl].
  - exists 0%nat, x. simpl. repeat split; try done.
    + intros [|j] s'; simpl; [|done]. intros [= ->]. lra.
    + intros j s' Hj. lia.
  - destruct (IH Hl) as (i & s & Hi & -> & Hmin & Hfirst).
    pose proof (lookup_lt_Some _ _ _ Hi) as Hlt.
    unfold SmartBus.below. destruct (Rlt_dec (d x) (d s)) as [Hx|Hx].
    + exists (length l), x. split; [by rewrite list_lookup_middle|].
      split; [done|]. split.
      * intros j s' Hj. apply lookup_app_Some in Hj as [Hj|[_ Hj]].
        -- specialize (Hmin _ _ Hj). lra.
        -- apply list_lookup_singleton_Some in Hj as [_ ->]. lra.
      * intros j s' Hjl Hj. rewrite lookup_app_l in Hj by done.
        specialize (Hmin _ _ Hj). lra.
    + exists i, s. split; [by rewrite lookup_app_l|].
      split; [done|]. split.
      * intros j s' Hj. apply lookup_app_Some in Hj as [Hj|[_ Hj]].
        -- by apply (Hmin j).
        -- apply list_lookup_singleton_Some in Hj as [_ ->]. lra.
      * intros j s' Hji Hj. rewrite lookup_app_l in Hj by lia.
        by apply (Hfirst j).
Qed.

End Nearest.

Section NearestStop.

Local Open Scope R_scope.


End NearestStop.

Section NearestStopExamples.

Import Examples.

Local Open Scope R_scope.


End NearestStopExamples.

(** ** The ETA estimator *)

Section EtaWalk.

Import SmartBus.

Variables (stops : list Stop) (userStop : Stop).

(** The walk of [calculateETA] finds a stop that lies [m] steps ahead of
    [nextIndex] within [m] executions of the loop body. *)
Lemma calculateETA_loop_reaches (m : nat) :
  ∀ (fuel : nat) (distance : R) (idx nxt : nat) (pause : Z) (st : Stop),
    idx < length stops →
    nxt < length stops →
    stops !! ((nxt + m) mod length stops) = Some st →
    name st = name userStop →
    m <= fuel →
    ∃ r, calculateETA_loop fuel stops userStop distance idx nxt pause = Done r.
Proof.
  induction m as [|m IH]; intros fuel distance idx nxt pause st Hidx Hnxt Hst Hname Hfuel.
  - rewrite Nat.add_0_r, Nat.mod_small in Hst by done.
    destruct fuel; simpl; rewrite Hst, decide_False; eauto.
  - destruct (lookup_lt_is_Some_2 _ _ Hnxt) as [to Hto].
    destruct (lookup_lt_is_Some_2 _ _ Hidx) as [from Hfrom].
    destruct fuel as [|fuel]; [lia|].
    simpl. rewrite Hto.
    destruct (decide (name to ≠ name userStop)); [|eauto].
    rewrite Hfrom. apply (IH _ _ _ _ _ st); try done; try lia.
    + apply Nat.mod_upper_bound. lia.
    + rewrite Nat.Div0.add_mod_idemp_l.
      by replace (nxt + 1 + m) with (nxt + S m) by lia.
Qed.

(** A stop named like the target lies less than [stops.length] steps
    ahead, wherever the walk starts. *)
Lemma target_ahead (t nxt : nat) :
  t < length stops →
  nxt < length stops →
  ∃ m, m < length stops ∧ (nxt + m) mod length stops = t.
Proof.
  intros Ht Hnxt. exists ((t + length stops - nxt) mod length stops). split.
  - apply Nat.mod_upper_bound. lia.
  - rewrite Nat.Div0.add_mod_idemp_r.
    replace (nxt + (t + length stops - nxt)) with (t + 1 * length stops) by lia.
    rewrite Nat.Div0.mod_add. by apply Nat.mod_small.
Qed.

Lemma calculateETA_loop_terminates (distance : R) (idx nxt : nat) (pause : Z)
    (t : nat) (st : Stop) :
  stops !! t = Some st →
  name st = name userStop →
  idx < length stops →
  nxt < length stops →
  ∃ r, calculateETA_loop (length stops) stops userStop distance idx nxt pause
       = Done r.
Proof.
  intros Hst Hname Hidx Hnxt.
  destruct (target_ahead t nxt) as (m & Hm & Hmod);
    [by eapply lookup_lt_Some|done|].
  apply (calculateETA_loop_reaches m _ _ _ _ _ st); try done; try lia.
  by rewrite Hmod.
Qed.

(** When no stop carries the target's name the loop condition never turns
    false: whatever the fuel, the walk is still going when it runs out. *)
Lemma calculateETA_loop_diverges (fuel : nat) :
  ∀ (distance : R) (idx nxt : nat) (pause : Z),
    (∀ st, st ∈ stops → name st ≠ name userStop) →
    idx < length stops →
    nxt < length stops →
    calculateETA_loop fuel stops userStop distance idx nxt pause = Diverge.
Proof.
  induction fuel as [|fuel IH]; intros distance idx nxt pause Habs Hidx Hnxt;
    destruct (lookup_lt_is_Some_2 _ _ Hnxt) as [to Hto];
    destruct (lookup_lt_is_Some_2 _ _ Hidx) as [from Hfrom];
    simpl; rewrite Hto, decide_True
      by (apply Habs; eapply list_elem_of_lookup_2; done); [done|].
  rewrite Hfrom. apply IH; try done.
  apply Nat.mod_upper_bound. lia.
Qed.

(** The estimate once the walk has returned. *)
Lemma calculateETA_done (fuel : nat) (bus : Bus) (from to : Stop)
    (distance : R) (pause : Z) :
  calculateETA_loop fuel stops userStop 0 (index bus) (nextIndex bus) 0
    = Done (distance, pause) →
  stops !! index bus = Some from →
  stops !! nextIndex bus = Some to →
  calculateETA fuel stops bus userStop =
    Done (JS.ceil ((distance + segment from to * (1 - progress bus)) * 100
                   + IZR pause * 0.1)).
Proof.
  intros Hloop Hfrom Hto. unfold calculateETA.
  rewrite Hloop, Hfrom, Hto. by rewrite round_IZR.
Qed.

End EtaWalk.

Section BusEtaWalk.

Import SmartBusNepal.

Lemma indexOf_Some (l : list string) (x : string) (i : nat) :
  indexOf l x = Some i → l !! i = Some x.
Proof.
  revert i. induction l as [|y l IH]; intros i; simpl; [done|].
  case_decide as Hy.
  - intros [= <-]. by subst.
  - destruct (indexOf l x) as [k|]; simpl; [|done].
    intros [= <-]. simpl. by apply IH.
Qed.

Lemma indexOf_None (l : list string) (x : string) :
  indexOf l x = None ↔ x ∉ l.
Proof.
  induction l as [|y l IH]; simpl.
  - split; [intros _; apply not_elem_of_nil | done].
  - rewrite not_elem_of_cons. case_decide as Hy.
    + split; [done | intros [Hne _]; by subst].
    + destruct (indexOf l x) as [k|]; simpl.
      * split; [done|]. intros [_ Hl]. by apply IH in Hl.
      * split; [|done]. intros _. split; [done | by apply IH].
Qed.

Variables (stopsData : list Stop) (bus : Bus) (targetStopIndex : nat).

Hypothesis target_in_range : targetStopIndex < length (stops bus).

(** From an index inside [bus.stops], the target index [m] steps ahead is
    reached within [m] executions of the loop body. *)
Lemma calculateBusETA_loop_reaches (m : nat) :
  ∀ (fuel : nat) (totalTime : R) (currentIndex : nat),
    currentIndex < length (stops bus) →
    (currentIndex + m) mod length (stops bus) = targetStopIndex →
    m <= fuel →
    ∃ r, calculateBusETA_loop fuel stopsData bus targetStopIndex totalTime
           currentIndex = Done r.
Proof.
  induction m as [|m IH]; intros fuel totalTime currentIndex Hc Hmod Hfuel.
  - rewrite Nat.add_0_r, Nat.mod_small in Hmod by done.
    destruct fuel; simpl; rewrite decide_False; eauto.
  - destruct fuel as [|fuel]; [lia|]. simpl.
    destruct (decide (currentIndex ≠ targetStopIndex)); [|eauto].
    apply IH; [apply Nat.mod_upper_bound; lia| |lia].
    rewrite Nat.Div0.add_mod_idemp_l.
    by replace (currentIndex + 1 + m) with (currentIndex + S m) by lia.
Qed.

Lemma bus_target_ahead (currentIndex : nat) :
  currentIndex < length (stops bus) →
  ∃ m, m < length (stops bus) ∧
       (currentIndex + m) mod length (stops bus) = targetStopIndex.
Proof.
  intros Hc.
  exists ((targetStopIndex + length (stops bus) - currentIndex)
          mod length (stops bus)). split.
  - apply Nat.mod_upper_bound. lia.
  - rewrite Nat.Div0.add_mod_idemp_r.
    replace (currentIndex + (targetStopIndex + length (stops bus) - currentIndex))
      with (targetStopIndex + 1 * length (stops bus)) by lia.
    rewrite Nat.Div0.mod_add. by apply Nat.mod_small.
Qed.

(** Wherever it starts, the loop has returned after at most
    [bus.stops.length] executions of its body: an index past the end is
    brought into range by the first one. *)
Lemma calculateBusETA_loop_terminates (fuel : nat) (totalTime : R)
    (currentIndex : nat) :
  length (stops bus) <= fuel →
  ∃ r, calculateBusETA_loop fuel stopsData bus targetStopIndex
         totalTime currentIndex = Done r.
Proof.
  intros Hfuel.
  destruct (decide (currentIndex < length (stops bus))) as [Hc|Hc].
  - destruct (bus_target_ahead currentIndex Hc) as (m & Hm & Hmod).
    apply (calculateBusETA_loop_reaches m); done || lia.
  - destruct fuel as [|fuel]; [lia|].
    cbn [calculateBusETA_loop]. rewrite decide_True by lia.
    assert ((currentIndex + 1) mod length (stops bus) < length (stops bus))
      as Hnext by (apply Nat.mod_upper_bound; lia).
    destruct (bus_target_ahead _ Hnext) as (m & Hm & Hmod).
    apply (calculateBusETA_loop_reaches m); done || lia.
Qed.

End BusEtaWalk.

Section EtaTermination.

Import Examples.

(** With an index that does not point into the stop table the walk ends
    in a TypeError (or has already found its target); it does not run on. *)
Lemma calculateETA_loop_out_of_range (stops : list Stop) (userStop : Stop)
    (fuel : nat) (distance : R) (idx nxt : nat) (pause : Z) :
  0 < fuel →
  ¬ (idx < length stops ∧ nxt < length stops) →
  SmartBus.calculateETA_loop fuel stops userStop distance idx nxt pause
    ≠ Diverge.
Proof.
  intros Hfuel Hout. destruct fuel as [|fuel]; [lia|]. simpl.
  destruct (stops !! nxt) as [to|] eqn:Hto; [|done].
  case_decide; [|done].
  destruct (stops !! idx) as [from|] eqn:Hfrom; [|done].
  exfalso. apply Hout. split; by eapply lookup_lt_Some.
Qed.

(** The guard of [calculateBusETA]: a target that is not one of
    [bus.stops] gives 0. *)
Lemma calculateBusETA_absent (fuel : nat) (now : R) (stopsData : list Stop)
    (bus : SmartBusNepal.Bus) (targetStopName : string) :
  targetStopName ∉ SmartBusNepal.stops bus →
  SmartBusNepal.calculateBusETA fuel now stopsData bus targetStopName = Done 0%Z.
Proof.
  intros Hout. apply indexOf_None in Hout.
  unfold SmartBusNepal.calculateBusETA. rewrite Hout.
  by case_decide.
Qed.

(** C2, as the code has it.  When a stop of the table carries the target's
    name, [calculateETA] ends within [stops.length] executions of its loop
    body, and returns a number when the bus indices point into the table.
    When the target is one of [bus.stops], [calculateBusETA] ends within
    [bus.stops.length] executions of its loop body, and returns a number
    when the bus is at a stop or has a next stop.  When the target is not
    one of [bus.stops], [calculateBusETA] returns 0. *)
Theorem eta_walk_terminates (stops : list Stop) (bus : SmartBus.Bus)
    (userStop : Stop) (now : R) (stopsData : list Stop)
    (bus2 : SmartBusNepal.Bus) (targetStopName : string) :
  ((∃ st, st ∈ stops ∧ name st = name userStop) →
   SmartBus.calculateETA (length stops) stops bus userStop ≠ Diverge ∧
   (SmartBus.index bus < length stops →
    SmartBus.nextIndex bus < length stops →
    ∃ e, SmartBus.calculateETA (length stops) stops bus userStop = Done e)) ∧
  (targetStopName ∈ SmartBusNepal.stops bus2 →
   SmartBusNepal.calculateBusETA (length (SmartBusNepal.stops bus2)) now
     stopsData bus2 targetStopName ≠ Diverge ∧
   (SmartBusNepal.isAtStop bus2 = true ∨ is_Some (SmartBusNepal.nextStop bus2) →
    ∃ e, SmartBusNepal.calculateBusETA (length (SmartBusNepal.stops bus2)) now
           stopsData bus2 targetStopName = Done e)) ∧
  (targetStopName ∉ SmartBusNepal.stops bus2 →
   ∀ fuel, SmartBusNepal.calculateBusETA fuel now stopsData bus2 targetStopName
           = Done 0%Z).
Proof.
  split; [|split].
  - intros (st & Hin & Hname).
    apply list_elem_of_lookup in Hin as [t Ht].
    pose proof (lookup_lt_Some _ _ _ Ht) as Hlen.
    assert (SmartBus.index bus < length stops →
            SmartBus.nextIndex bus < length stops →
            ∃ e, SmartBus.calculateETA (length stops) stops bus userStop = Done e)
      as Hdone.
    { intros Hidx Hnxt.
      destruct (calculateETA_loop_terminates stops userStop 0
                  (SmartBus.index bus) (SmartBus.nextIndex bus) 0 t st)
        as [[distance pause] Hloop]; try done.
      destruct (lookup_lt_is_Some_2 _ _ Hidx) as [from Hfrom].
      destruct (lookup_lt_is_Some_2 _ _ Hnxt) as [to Hto].
      eexists. by eapply calculateETA_done. }
    split; [|done].
    destruct (decide (SmartBus.index bus < length stops
                      ∧ SmartBus.nextIndex bus < length stops)) as [[Hidx Hnxt]|Hout].
    + destruct (Hdone Hidx Hnxt) as [e ->]. done.
    + pose proof (calculateETA_loop_out_of_range stops userStop (length stops)
                    0 _ _ 0 ltac:(lia) Hout) as Hloop.
      unfold SmartBus.calculateETA.
      destruct (SmartBus.calculateETA_loop _ _ _ _ _ _ _) as [[distance pause]| |];
        [|done|done].
      by destruct (stops !! SmartBus.index bus), (stops !! SmartBus.nextIndex bus).
  - intros Hin.
    assert (∃ t, SmartBusNepal.indexOf (SmartBusNepal.stops bus2) targetStopName
                 = Some t) as [t Ht].
    { destruct (SmartBusNepal.indexOf _ _) eqn:Hidx; [eauto|].
      by apply indexOf_None in Hidx. }
    pose proof (lookup_lt_Some _ _ _ (indexOf_Some _ _ _ Ht)) as Hlt.
    unfold SmartBusNepal.calculateBusETA. rewrite Ht.
    case_decide; [split; eauto; done|].
    assert (∀ totalTime currentIndex,
              ∃ r, SmartBusNepal.calculateBusETA_loop
                     (length (SmartBusNepal.stops bus2)) stopsData bus2 t
                     totalTime currentIndex = Done r) as Hloop.
    { intros. by apply calculateBusETA_loop_terminates. }
    destruct (SmartBusNepal.isAtStop bus2).
    + destruct (Hloop (0 + Rmax 0 (SmartBusNepal.STOP_PAUSE_TIME
                  - (now - SmartBusNepal.stopArrivalTime bus2) / 1000))%R
                  (SmartBusNepal.currentStopIndex bus2)) as [r ->].
      split; eauto; done.
    + destruct (SmartBusNepal.findStop _ _) as [currentStop|].
      * destruct (SmartBusNepal.nextStop bus2) as [nxt|].
        -- match goal with
           | |- context [SmartBusNepal.calculateBusETA_loop _ _ _ _ ?T ?c] =>
               destruct (Hloop T c) as [r ->]
           end.
           split; eauto; done.
        -- split; [done|]. intros [[=]|[? [=]]].
      * match goal with
        | |- context [SmartBusNepal.calculateBusETA_loop _ _ _ _ ?T ?c] =>
            destruct (Hloop T c) as [r ->]
        end.
        split; eauto; done.
  - intros Hout fuel. by apply calculateBusETA_absent.
Qed.

End EtaTermination.

(** ** ETA from tick to tick *)

Section EtaMonotone.

Import SmartBus Examples.

Local Open Scope R_scope.

Lemma segment_nonneg (from to : Stop) : 0 <= segment from to.
Proof. apply sqrt_pos. Qed.

(** C3, as the code has it.  For a target that is a stop of the table and
    a moving bus whose tick does not reach the next stop, the ETA after
    the tick is not greater than the ETA before it. *)
Theorem eta_never_increases_in_transit (stops : list Stop) (bus : Bus)
    (userStop : Stop) :
  (∃ st, st ∈ stops ∧ name st = name userStop) →
  (index bus < length stops)%nat →
  (nextIndex bus < length stops)%nat →
  (20 <= stopTimer bus)%Z →
  progress bus + 0.01 < 1 →
  ∃ (bus' : Bus) (e e' : Z),
    tick stops bus = Some bus' ∧
    calculateETA (length stops) stops bus userStop = Done e ∧
    calculateETA (length stops) stops bus' userStop = Done e' ∧
    (e' <= e)%Z.
Proof.
  intros (st & Hin & Hname) Hidx Hnxt Hst Hp.
  apply list_elem_of_lookup in Hin as [t Ht].
  destruct (lookup_lt_is_Some_2 _ _ Hidx) as [from Hfrom].
  destruct (lookup_lt_is_Some_2 _ _ Hnxt) as [to Hto].
  destruct (calculateETA_loop_terminates stops userStop 0 (index bus)
              (nextIndex bus) 0 t st) as [[distance pause] Hloop]; try done.
  eexists _, _, _.
  split; [by eapply tick_move|].
  split; [by eapply calculateETA_done|].
  split; [by eapply calculateETA_done|].
  cbn [progress]. apply ceil_mono.
  pose proof (segment_nonneg from to). nra.
Qed.

Lemma segment_city_AB : segment (mkStop "A" 0 0) (mkStop "B" 0 0.01) = 0.01.
Proof.
  unfold segment. cbn [lat lng].
  replace ((0 - 0) ^ 2 + (0.01 - 0) ^ 2) with (0.01 ^ 2) by lra.
  apply sqrt_pow2. lra.
Qed.

Lemma segment_city_BA : segment (mkStop "B" 0 0.01) (mkStop "A" 0 0) = 0.01.
Proof.
  unfold segment. cbn [lat lng].
  replace ((0 - 0) ^ 2 + (0 - 0.01) ^ 2) with (0.01 ^ 2) by lra.
  apply sqrt_pow2. lra.
Qed.

Lemma tick_busHalfway : tick stopsCity busHalfway = Some busHalfwayNext.
Proof.
  rewrite (tick_move stopsCity busHalfway (mkStop "A" 0 0) (mkStop "B" 0 0.01));
    [|done|done|simpl; lia|simpl; lra].
  unfold busHalfwayNext. simpl. do 2 f_equal; lra.
Qed.

(** C3, as the claim has it, fails: half way between "A" and "B" on the
    city-scale loop the bus is moving before and after the tick, and its
    ETA at "B" is one minute before the tick and one minute after it. *)
Lemma eta_holds_steady_in_transit :
  tick stopsCity busHalfway = Some busHalfwayNext ∧
  (20 <= stopTimer busHalfway)%Z ∧
  (20 <= stopTimer busHalfwayNext)%Z ∧
  calculateETA 3 stopsCity busHalfway (mkStop "B" 0 0.01) = Done 1%Z ∧
  calculateETA 3 stopsCity busHalfwayNext (mkStop "B" 0 0.01) = Done 1%Z ∧
  ¬ (∀ e e', calculateETA 3 stopsCity busHalfway (mkStop "B" 0 0.01) = Done e →
             calculateETA 3 stopsCity busHalfwayNext (mkStop "B" 0 0.01) = Done e' →
             (e' < e)%Z).
Proof.
  assert (calculateETA 3 stopsCity busHalfway (mkStop "B" 0 0.01) = Done 1%Z)
    as Hbefore.
  { rewrite (calculateETA_done stopsCity _ 3 busHalfway
               (mkStop "A" 0 0) (mkStop "B" 0 0.01) 0 0); try done.
    rewrite segment_city_AB. f_equal. apply ceil_spec. simpl. lra. }
  assert (calculateETA 3 stopsCity busHalfwayNext (mkStop "B" 0 0.01) = Done 1%Z)
    as Hafter.
  { rewrite (calculateETA_done stopsCity _ 3 busHalfwayNext
               (mkStop "A" 0 0) (mkStop "B" 0 0.01) 0 0); try done.
    rewrite segment_city_AB. f_equal. apply ceil_spec. simpl. lra. }
  repeat split; try done; try (simpl; lia); try apply tick_busHalfway.
  intros Hlt. specialize (Hlt _ _ Hbefore Hafter). lia.
Qed.

(** On the tick that completes a segment the ETA at the stop just reached
    starts over with the whole loop: on the two-stop shuttle it goes from
    one minute to four. *)
Lemma eta_jumps_at_wrap :
  tick stopsPair busPairArriving = Some busPairArrived ∧
  calculateETA 2 stopsPair busPairArriving (mkStop "B" 0 0.01) = Done 1%Z ∧
  calculateETA 2 stopsPair busPairArrived (mkStop "B" 0 0.01) = Done 4%Z.
Proof.
  split; [|split].
  - rewrite (tick_wrap stopsPair busPairArriving
               (mkStop "A" 0 0) (mkStop "B" 0 0.01));
      [|done|done|simpl; lia|simpl; lra].
    unfold busPairArrived. simpl. do 2 f_equal; lra.
  - rewrite (calculateETA_done stopsPair _ 2 busPairArriving
               (mkStop "A" 0 0) (mkStop "B" 0 0.01) 0 0); try done.
    rewrite segment_city_AB. f_equal. apply ceil_spec. simpl. lra.
  - rewrite (calculateETA_done stopsPair _ 2 busPairArrived
               (mkStop "B" 0 0.01) (mkStop "A" 0 0)
               (0 + segment (mkStop "B" 0 0.01) (mkStop "A" 0 0)) 20); try done.
    rewrite segment_city_BA. f_equal. apply ceil_spec. simpl. lra.
Qed.

Lemma eta_never_increases_in_transit_witness :
  ∃ (bus' : Bus) (e e' : Z),
    tick stopsCity busHalfway = Some bus' ∧
    calculateETA 3 stopsCity busHalfway (mkStop "B" 0 0.01) = Done e ∧
    calculateETA 3 stopsCity bus' (mkStop "B" 0 0.01) = Done e' ∧
    (e' <= e)%Z.
Proof.
  apply (eta_never_increases_in_transit stopsCity busHalfway (mkStop "B" 0 0.01)).
  - exists (mkStop "B" 0 0.01). split; [|done].
    apply list_elem_of_lookup. by exists 1%nat.
  - simpl. lia.
  - simpl. lia.
  - simpl. lia.
  - simpl. lra.
Defined.

End EtaMonotone.

Section EtaTerminationExamples.

Import Examples.

Lemma stopElsewhere_absent (st : Stop) :
  st ∈ stopsABC → name st ≠ name stopElsewhere.
Proof.
  unfold stopsABC. rewrite !elem_of_cons, elem_of_nil.
  intros [->|[->|[->|[]]]]; done.
Qed.

Lemma busRing_no_Z : "Z" ∉ SmartBusNepal.stops busRing.
Proof.
  simpl. rewrite !not_elem_of_cons. repeat split; try done.
  apply not_elem_of_nil.
Qed.

(** C2, as the claim has it, fails: for a target that is not on the
    route, [calculateETA] is still walking whatever fuel it is given, and
    [calculateBusETA] returns the number 0; neither raises. *)
Lemma absent_target_not_surfaced :
  (∀ fuel, SmartBus.calculateETA fuel stopsABC busStart stopElsewhere = Diverge) ∧
  (∀ fuel now,
     SmartBusNepal.calculateBusETA fuel now stopsABC busRing "Z" = Done 0%Z ∧
     SmartBusNepal.calculateBusETA fuel now stopsABC busRing "Z" ≠ Throw).
Proof.
  split.
  - intros fuel. unfold SmartBus.calculateETA.
    rewrite calculateETA_loop_diverges;
      [done | apply stopElsewhere_absent | simpl; lia | simpl; lia].
  - intros fuel now.
    rewrite (calculateBusETA_absent fuel now stopsABC busRing "Z" busRing_no_Z).
    done.
Qed.

Lemma eta_walk_terminates_witness :
  (∃ e, SmartBus.calculateETA 3 stopsABC busStart (mkStop "C" 1 1) = Done e) ∧
  (∃ e, SmartBusNepal.calculateBusETA 3 0 stopsABC busRing "C" = Done e) ∧
  SmartBusNepal.calculateBusETA 3 0 stopsABC busRing "Z" = Done 0%Z.
Proof.
  destruct (eta_walk_terminates stopsABC busStart (mkStop "C" 1 1) 0 stopsABC
              busRing "C") as (Hwalk & Hbus & _).
  destruct (eta_walk_terminates stopsABC busStart (mkStop "C" 1 1) 0 stopsABC
              busRing "Z") as (_ & _ & Habsent).
  split; [|split].
  - apply Hwalk; [|simpl; lia|simpl; lia].
    exists (mkStop "C" 1 1). split; [|done].
    apply list_elem_of_lookup. by exists 2.
  - apply Hbus; [|by left].
    apply list_elem_of_lookup. by exists 2.
  - apply Habsent, busRing_no_Z.
Defined.

End EtaTerminationExamples.

(** * Further properties of the interval-timer variant *)

Section SimulatorCycle.

Import SmartBus.

Local Open Scope R_scope.

Variable stops : list Stop.

(** X1.  A bus that has just reached a stop ([progress = 0],
    [stopTimer = 0]) keeps its two indices for the next 119 ticks and
    moves on to the next segment on tick 120: twenty ticks of dwelling
    and a hundred of moving per segment, ending again with
    [progress = 0] and [stopTimer = 0]. *)
Theorem segment_takes_120_ticks (bus : Bus) (from to : Stop) :
  stops !! index bus = Some from →
  stops !! nextIndex bus = Some to →
  progress bus = 0 →
  stopTimer bus = 0%Z →
  (∀ n, (n < 120)%nat →
        ∃ bus', ticks n stops bus = Some bus' ∧
                index bus' = index bus ∧ nextIndex bus' = nextIndex bus) ∧
  ticks 120 stops bus =
    Some {| id := id bus; bus_lat := lat from; bus_lng := lng from;
            index := nextIndex bus;
            nextIndex := (nextIndex bus + 1) mod length stops;
            progress := 0; stopTimer := 0 |}.
Proof.
  intros Hfrom Hto Hp Hst.
  assert (ticks 20 stops bus =
            Some {| id := id bus; bus_lat := bus_lat bus; bus_lng := bus_lng bus;
                    index := index bus; nextIndex := nextIndex bus;
                    progress := progress bus; stopTimer := 20 |}) as Hdwell.
  { rewrite ticks_dwell by (rewrite Hst; simpl; lia).
    by rewrite Hst. }
  assert (∀ k, (k < 99)%nat → INR (S k) <= 99) as Hk.
  { intros k Hlt. rewrite <- INR_99. apply le_INR. lia. }
  split.
  - intros n Hn. destruct (decide (n <= 20)%nat) as [Hle|Hgt].
    + eexists. split; [apply ticks_dwell; rewrite Hst; lia|]. done.
    + replace n with (20 + S (n - 21))%nat by lia.
      rewrite ticks_app, Hdwell. cbn [mbind option_bind].
      specialize (Hk (n - 21)%nat ltac:(lia)).
      erewrite ticks_move;
        cbn [id bus_lat bus_lng index nextIndex progress stopTimer];
        [eexists; split; [done|]; done|done|done|lia|lra].
  - change 120%nat with (20 + (99 + 1))%nat.
    rewrite ticks_app, Hdwell. cbn [mbind option_bind].
    rewrite ticks_app.
    erewrite (ticks_move stops 98);
      cbn [id bus_lat bus_lng index nextIndex progress stopTimer];
      [|done|done|lia|rewrite INR_99; lra].
    cbn [mbind option_bind ticks].
    erewrite tick_wrap;
      cbn [id bus_lat bus_lng index nextIndex progress stopTimer];
      [|done|done|lia|rewrite INR_99; lra].
    cbn [mbind option_bind]. do 2 f_equal; lra.
Qed.


(** X3.  Apart from the tick that completes a segment, a tick keeps the
    stored position equal to the interpolation between the current and the
    next stop at the stored progress. *)
Theorem position_interpolated_between_stops (bus bus' : Bus) :
  Some (position bus) = interpolated stops bus →
  ¬ ((20 <= stopTimer bus)%Z ∧ progress bus + 0.01 >= 1) →
  tick stops bus = Some bus' →
  Some (position bus') = interpolated stops bus'.
Proof.
  intros Hpos Hnowrap Htick. unfold tick in Htick.
  destruct (Z.ltb_spec (stopTimer bus) 20).
  - by injection Htick as <-.
  - destruct (Rge_dec _ _); [exfalso; by apply Hnowrap|].
    destruct (stops !! index bus) as [from|] eqn:Hfrom; [|done].
    destruct (stops !! nextIndex bus) as [to|] eqn:Hto; [|done].
    simpl in Htick. injection Htick as <-.
    unfold interpolated, position. simpl. by rewrite Hfrom, Hto.
Qed.

End SimulatorCycle.

Section EtaFacts.

Import SmartBus.

Local Open Scope R_scope.

Variables (stops : list Stop) (userStop : Stop).

(** X4.  The estimate does not read [stopTimer]: a dwelling tick leaves
    the ETA of the bus at any stop as it was. *)
Theorem eta_steady_while_dwelling (fuel : nat) (bus : Bus) :
  (stopTimer bus < 20)%Z →
  ∃ bus', tick stops bus = Some bus' ∧
          calculateETA fuel stops bus' userStop
          = calculateETA fuel stops bus userStop.
Proof.
  intros Hdwell. eexists. split; [by apply tick_dwell|]. done.
Qed.


(** The walk only adds to the distance and to the pause. *)
Lemma calculateETA_loop_grows (fuel : nat) :
  ∀ (distance : R) (idx nxt : nat) (pause : Z) (distance' : R) (pause' : Z),
    calculateETA_loop fuel stops userStop distance idx nxt pause
      = Done (distance', pause') →
    distance <= distance' ∧ (pause <= pause')%Z.
Proof.
  induction fuel as [|fuel IH]; intros distance idx nxt pause distance' pause';
    simpl; destruct (stops !! nxt) as [to|]; try done;
    case_decide; try done; try (intros [= <- <-]; split; [lra|lia]).
  destruct (stops !! idx) as [from|]; [|done].
  intros Hloop. apply IH in Hloop as [Hd Hp].
  pose proof (sqrt_pos ((lat to - lat from) ^ 2 + (lng to - lng from) ^ 2)).
  unfold segment in Hd. split; [lra|lia].
Qed.

(** X6.  For a bus whose progress is at most 1 the ETA is never
    negative. *)
Theorem eta_nonnegative (fuel : nat) (bus : Bus) (e : Z) :
  progress bus <= 1 →
  calculateETA fuel stops bus userStop = Done e →
  (0 <= e)%Z.
Proof.
  intros Hp. unfold calculateETA.
  destruct (calculateETA_loop _ _ _ _ _ _ _) as [[distance pause]| |] eqn:Hloop;
    [|done|done].
  destruct (stops !! index bus) as [from|]; [|done].
  destruct (stops !! nextIndex bus) as [to|]; [|done].
  intros [= <-]. rewrite round_IZR.
  apply calculateETA_loop_grows in Hloop as [Hd Hpause].
  apply IZR_le in Hpause.
  replace 0%Z with (JS.ceil 0) by (apply ceil_spec; lra).
  apply ceil_mono.
  pose proof (sqrt_pos ((lat to - lat from) ^ 2 + (lng to - lng from) ^ 2)).
  unfold segment. nra.
Qed.

(** Moving the target stop on the map does not change the walk that starts
    from another stop. *)
Lemma calculateETA_loop_moved_target (t : nat) (st st' : Stop) (fuel : nat) :
  stops !! t = Some st →
  name st = name userStop →
  name st' = name userStop →
  ∀ (distance : R) (idx nxt : nat) (pause : Z),
    idx ≠ t →
    calculateETA_loop fuel (<[t := st']> stops) userStop distance idx nxt pause
    = calculateETA_loop fuel stops userStop distance idx nxt pause.
Proof.
  intros Hst Hname Hname'.
  pose proof (lookup_lt_Some _ _ _ Hst) as Hlt.
  induction fuel as [|fuel IH]; intros distance idx nxt pause Hidx; simpl;
    (destruct (decide (nxt = t)) as [->|Hnxt];
     [rewrite list_lookup_insert_eq, Hst by done;
      rewrite !decide_False by (by intros []); done
     |rewrite list_lookup_insert_ne by done]).
  - done.
  - destruct (stops !! nxt) as [to|]; [|done].
    case_decide; [|done].
    rewrite list_lookup_insert_ne by done.
    destruct (stops !! idx) as [from|]; [|done].
    rewrite length_insert. by apply IH.
Qed.

(** X7.  The estimate never measures the segment that leads to the
    target: when the target is neither the current nor the next stop of
    the bus, putting the target stop anywhere else on the map leaves the
    ETA as it was. *)
Theorem eta_ignores_target_position (fuel : nat) (bus : Bus) (t : nat)
    (st st' : Stop) :
  stops !! t = Some st →
  name st = name userStop →
  name st' = name userStop →
  index bus ≠ t →
  nextIndex bus ≠ t →
  calculateETA fuel (<[t := st']> stops) bus userStop
  = calculateETA fuel stops bus userStop.
Proof.
  intros Hst Hname Hname' Hidx Hnxt. unfold calculateETA.
  rewrite (calculateETA_loop_moved_target t st st') by done.
  by rewrite !list_lookup_insert_ne by done.
Qed.

End EtaFacts.

Section EtaDisplay.

Import SmartBus.

(** X8.  What the ETA panel shows after an update: for a bus with a
    recomputed ETA it is that ETA, except that a bus that was not shown
    yet and whose ETA is 0 stays out of the panel; a bus without a
    recomputed ETA keeps what was shown.  On whole minutes the
    one-minute threshold holds nothing else back. *)
Theorem updateBusETAs_lookup (prev newETAs : gmap string Z) (id : string) :
  updateBusETAs prev newETAs !! id =
    match newETAs !! id with
    | Some eta =>
        if decide (eta = 0%Z ∧ prev !! id = None) then None else Some eta
    | None => prev !! id
    end.
Proof.
  unfold updateBusETAs. revert id.
  apply (map_fold_weak_ind
           (fun updated m =>
              ∀ id, updated !! id =
                    match m !! id with
                    | Some eta =>
                        if decide (eta = 0%Z ∧ prev !! id = None)
                        then None else Some eta
                    | None => prev !! id
                    end)).
  - intros id. by rewrite lookup_empty.
  - intros i eta m updated Hfresh IH id.
    destruct (decide (i = id)) as [->|Hne].
    + rewrite lookup_insert_eq. specialize (IH id). rewrite Hfresh in IH.
      case_decide as Hshow.
      * rewrite lookup_insert_eq. rewrite decide_False; [done|].
        intros [-> Hnone]. rewrite Hnone in Hshow. simpl in Hshow. lia.
      * rewrite IH. destruct (prev !! id) as [p|] eqn:Hprev; simpl in Hshow.
        -- rewrite decide_False by (by intros [_ ?]). f_equal. lia.
        -- rewrite decide_True; [done|]. split; [lia|done].
    + rewrite lookup_insert_ne by done. rewrite <- IH.
      case_decide; [by rewrite lookup_insert_ne|done].
Qed.

End EtaDisplay.

Section TicketPurchase.

Import SmartBus.

Local Open Scope R_scope.

(** The nearest stop is a stop of the table, with or without a user
    location. *)
Lemma findNearestStop_in_table (stops : list Stop) (userLocation : option LatLng) :
  stops ≠ [] →
  ∃ s, s ∈ stops ∧ findNearestStop stops userLocation = Some (name s).
Proof.
  intros Hne. destruct userLocation as [u|].
  - destruct (scan_first_minimum (dist u) (fun stop _ => stop)
                (stops !! 0%nat) stops Hne) as (i & s & Hi & Hfold & _).
    exists s. split; [by eapply list_elem_of_lookup_2|].
    unfold findNearestStop. cbv zeta. by rewrite Hfold.
  - destruct stops as [|s stops]; [done|].
    exists s. split; [apply list_elem_of_here|done].
Qed.

(** [stops.find] on the name of a stop of the table finds a stop with
    that name. *)
Lemma findByName_in_table (stops : list Stop) (s : Stop) :
  s ∈ stops →
  ∃ s', findByName stops (name s) = Some s' ∧ s' ∈ stops ∧ name s' = name s.
Proof.
  intros Hin. unfold findByName.
  destruct (List.find _ stops) as [s'|] eqn:Hfind.
  - apply find_some in Hfind as [Hin' Hname%bool_decide_eq_true].
    exists s'. by rewrite <- list_elem_of_In in Hin'.
  - apply list_elem_of_In in Hin.
    pose proof (find_none _ _ Hfind s Hin) as Hno. simpl in Hno.
    by rewrite bool_decide_eq_false in Hno.
Qed.

(** With a target of the table and buses inside the table, every ETA of
    the list is computed within [stops.length] turns of the walk. *)
Lemma etasAt_done (stops : list Stop) (s : Stop) (busPositions : list Bus) :
  s ∈ stops →
  (∀ bus, bus ∈ busPositions →
          (index bus < length stops)%nat ∧ (nextIndex bus < length stops)%nat) →
  ∃ etas, etasAt (length stops) stops (name s) busPositions = Done etas ∧
          length etas = length busPositions.
Proof.
  intros Hin Hbuses.
  destruct (findByName_in_table stops s Hin) as (s' & Hfind & Hin' & Hname).
  apply list_elem_of_lookup in Hin' as [t Ht].
  induction busPositions as [|bus rest IH]; [by exists []|].
  destruct IH as (etas & Hrest & Hlen).
  { intros b Hb. apply Hbuses. by apply list_elem_of_further. }
  destruct (Hbuses bus (list_elem_of_here _ _)) as [Hidx Hnxt].
  destruct (calculateETA_loop_terminates stops s' 0 (index bus) (nextIndex bus)
              0 t s') as [[distance pause] Hloop]; try done.
  destruct (lookup_lt_is_Some_2 _ _ Hidx) as [from Hfrom].
  destruct (lookup_lt_is_Some_2 _ _ Hnxt) as [to Hto].
  eexists (_ :: etas). cbn [etasAt]. rewrite Hfind.
  rewrite (calculateETA_done stops s' _ bus from to distance pause) by done.
  rewrite Hrest. split; [done|]. simpl. by rewrite Hlen.
Qed.

(** X9.  Buying a ticket goes through whenever the stop table is not
    empty, each stop has a row in the fare table and each bus has its
    two indices inside the stop table: the origin is the nearest stop,
    which is a stop of the table, so no ETA walk can miss its target.  The
    ticket has one ETA per bus, and its fare is the entry of the origin's
    row for the destination ([undefined] when there is none). *)
Theorem buyTicket_goes_through (now : R) (stops : list Stop)
    (fares : gmap string (gmap string Z)) (userLocation : option LatLng)
    (destination : string) (busPositions : list Bus) :
  stops ≠ [] →
  (∀ s, s ∈ stops → is_Some (fares !! name s)) →
  (∀ bus, bus ∈ busPositions →
          (index bus < length stops)%nat ∧ (nextIndex bus < length stops)%nat) →
  ∃ ticket,
    buyTicket (length stops) now stops fares userLocation destination
              busPositions = Done ticket ∧
    findNearestStop stops userLocation = Some (ticket_from ticket) ∧
    (∃ s, s ∈ stops ∧ ticket_from ticket = name s) ∧
    ticket_to ticket = destination ∧
    ticket_fare ticket = fares !! ticket_from ticket ≫= (.!! destination) ∧
    length (ticket_eta ticket) = length busPositions.
Proof.
  intros Hne Hrows Hbuses.
  destruct (findNearestStop_in_table stops userLocation Hne) as (s & Hin & Hnear).
  destruct (Hrows s Hin) as [row Hrow].
  destruct (etasAt_done stops s busPositions Hin Hbuses) as (etas & Hetas & Hlen).
  eexists. unfold buyTicket, buyTicket_fare.
  rewrite Hnear, Hrow, Hetas. split; [done|].
  cbn [ticket_from ticket_to ticket_fare ticket_eta].
  rewrite Hrow. repeat split; eauto.
Qed.

End TicketPurchase.

(** * Further properties of the animation-frame variant *)

Section Haversine.

Import SmartBusNepal.

Local Open Scope R_scope.




Lemma calculateDistance_self (lat1 lon1 : R) :
  calculateDistance lat1 lon1 lat1 lon1 = 0.
Proof.
  unfold calculateDistance.
  replace ((lat1 - lat1) * PI / 180 / 2) with 0 by lra.
  replace ((lon1 - lon1) * PI / 180 / 2) with 0 by lra.
  rewrite sin_0.
  match goal with
  | |- _ * (_ * JS.atan2 (sqrt ?a) _) = _ => replace a with 0 by ring
  end.
  rewrite Rminus_0_r, sqrt_0, sqrt_1. unfold JS.atan2.
  destruct (Rlt_dec 0 1); [|lra].
  unfold Rdiv. rewrite Rmult_0_l, atan_0. lra.
Qed.

(** X11.  The Haversine distance does not depend on the direction, and
    the distance from a point to itself is 0. *)
Theorem calculateDistance_symmetric (lat1 lon1 lat2 lon2 : R) :
  calculateDistance lat1 lon1 lat2 lon2 = calculateDistance lat2 lon2 lat1 lon1 ∧
  calculateDistance lat1 lon1 lat1 lon1 = 0.
Proof.
  split; [|apply calculateDistance_self].
  - unfold calculateDistance.
    replace ((lat1 - lat2) * PI / 180 / 2) with (- ((lat2 - lat1) * PI / 180 / 2))
      by lra.
    replace ((lon1 - lon2) * PI / 180 / 2) with (- ((lon2 - lon1) * PI / 180 / 2))
      by lra.
    rewrite !sin_neg.
    match goal with
    | |- _ * (_ * JS.atan2 (sqrt ?a) _) = _ * (_ * JS.atan2 (sqrt ?b) _) =>
        replace b with a by ring
    end.
    done.
Qed.

End Haversine.

Section NearestStopEdges.

Local Open Scope R_scope.


End NearestStopEdges.

Section FareDirection.

Import SmartBusNepal.

(** X13.  The fare of a trip and of the trip back are the same unless
    the table lists two different fares (neither of them 0) for the two
    directions. *)
Theorem calculateFare_direction (faresData : gmap string (gmap string Z))
    (fromStop toStop : string) :
  fromStop ≠ "" → toStop ≠ "" →
  let direct := faresData !! fromStop ≫= (.!! toStop) in
  let reverse := faresData !! toStop ≫= (.!! fromStop) in
  calculateFare faresData fromStop toStop = calculateFare faresData toStop fromStop
  ↔ (JS.truthy direct = true → JS.truthy reverse = true → direct = reverse).
Proof.
  intros Hf Ht direct reverse.
  rewrite !calculateFare_unfold, !or_or_zero by done.
  fold direct reverse. unfold JS.truthy.
  destruct direct as [x|], reverse as [y|]; simpl;
    try destruct (Z.eqb_spec x 0) as [->|Hx];
    try destruct (Z.eqb_spec y 0) as [->|Hy];
    simpl; repeat case_decide; split; try done; try congruence;
    try (intros Heq; specialize (Heq eq_refl eq_refl); congruence).
Qed.

End FareDirection.

Section FrameUpdate.

Import SmartBusNepal.

Local Open Scope R_scope.

Variables (currentTime deltaTime random : R) (stopsData : list Stop).

(** X14.  A bus pausing at a stop is not moved by a frame, nor is its
    occupancy changed; until 120 seconds have passed since its arrival
    the frame leaves it as it is altogether. *)
Theorem updateBus_waiting (v : Vehicle) :
  isAtStop (bus v) = true →
  position (bus (updateBus currentTime deltaTime random stopsData v))
    = position (bus v) ∧
  occupancy (updateBus currentTime deltaTime random stopsData v) = occupancy v ∧
  ((currentTime - stopArrivalTime (bus v)) / 1000 < 120 →
   updateBus currentTime deltaTime random stopsData v = v).
Proof.
  intros Hat. unfold updateBus. rewrite Hat. unfold STOP_PAUSE_TIME.
  destruct (Rge_dec _ _); repeat split; try done. lra.
Qed.

(** X15.  A frame keeps the occupancy between 0 and 100; a bus that
    arrives at a stop in the frame gets an occupancy between 10 and
    100. *)
Theorem updateBus_occupancy (v : Vehicle) :
  (0 <= occupancy v <= 100 →
   0 <= occupancy (updateBus currentTime deltaTime random stopsData v) <= 100) ∧
  (isAtStop (bus v) = false →
   isAtStop (bus (updateBus currentTime deltaTime random stopsData v)) = true →
   10 <= occupancy (updateBus currentTime deltaTime random stopsData v) <= 100).
Proof.
  assert (∀ x, 10 <= Rmax 10 (Rmin 100 x) <= 100) as Hclamp.
  { intros x. unfold Rmax, Rmin.
    destruct (Rle_dec 100 x); destruct (Rle_dec 10 _); lra. }
  unfold updateBus. destruct (isAtStop (bus v)) eqn:Hat.
  - destruct (Rge_dec _ _); split; done.
  - destruct (findStop _ _) as [currentStop|]; [|by rewrite Hat].
    destruct (nextStop (bus v)) as [targetStop|]; [|by rewrite Hat].
    destruct (Rlt_dec _ _); simpl; split; try done; intros;
      specialize (Hclamp (occupancy v + (random * 20 - 10))); lra.
Qed.

(** X16.  A frame keeps [currentStopIndex] inside [bus.stops], and
    changes it only when a pause ends, to the next index around the
    route. *)
Theorem updateBus_index (v : Vehicle) :
  (currentStopIndex (bus v) < length (stops (bus v)))%nat →
  let v' := updateBus currentTime deltaTime random stopsData v in
  stops (bus v') = stops (bus v) ∧
  (currentStopIndex (bus v') < length (stops (bus v')))%nat ∧
  (currentStopIndex (bus v') = currentStopIndex (bus v) ∨
   isAtStop (bus v) = true ∧ isAtStop (bus v') = false ∧
   120 <= (currentTime - stopArrivalTime (bus v)) / 1000 ∧
   currentStopIndex (bus v')
   = ((currentStopIndex (bus v) + 1) mod length (stops (bus v)))%nat).
Proof.
  intros Hidx v'. unfold v', updateBus, STOP_PAUSE_TIME.
  destruct (isAtStop (bus v)) eqn:Hat.
  - destruct (Rge_dec _ _) as [Hge|]; simpl; [|by auto].
    split; [done|]. split; [apply Nat.mod_upper_bound; lia|].
    right. repeat split; try done. lra.
  - destruct (findStop _ _) as [currentStop|]; [|by auto].
    destruct (nextStop (bus v)) as [targetStop|]; [|by auto].
    destruct (Rlt_dec _ _); simpl; auto.
Qed.

End FrameUpdate.

Section BusEtaFacts.

Import SmartBusNepal.

Local Open Scope R_scope.

Lemma round_bounds (x : R) : x - 0.5 < IZR (JS.round x) <= x + 0.5.
Proof.
  unfold JS.round. pose proof (Int_part_bounds (x + 0.5)). lra.
Qed.

Lemma round_mono (x y : R) : x <= y → (JS.round x <= JS.round y)%Z.
Proof. intros Hxy. unfold JS.round. apply Int_part_mono. lra. Qed.

(** X17.  For a bus pausing at the very stop that is asked for, the ETA
    is what is left of the two-minute pause, in minutes: 0, 1 or 2 once
    the arrival is in the past. *)
Theorem calculateBusETA_waiting_at_target (fuel : nat) (now : R)
    (stopsData : list Stop) (b : Bus) (targetStopName : string) :
  isAtStop b = true →
  targetStopName ≠ "" →
  indexOf (stops b) targetStopName = Some (currentStopIndex b) →
  calculateBusETA fuel now stopsData b targetStopName
  = Done (JS.round (Rmax 0 (120 - (now - stopArrivalTime b) / 1000) / 60)) ∧
  (stopArrivalTime b <= now →
   ∃ e, calculateBusETA fuel now stopsData b targetStopName = Done e ∧
        (0 <= e <= 2)%Z).
Proof.
  intros Hat Hname Hidx.
  assert (calculateBusETA fuel now stopsData b targetStopName
          = Done (JS.round (Rmax 0 (120 - (now - stopArrivalTime b) / 1000) / 60)))
    as Heta.
  { unfold calculateBusETA, STOP_PAUSE_TIME.
    rewrite decide_False, Hidx, Hat by done.
    destruct fuel; simpl; rewrite decide_False by (by intros []);
      do 2 f_equal; lra. }
  split; [done|]. intros Hpast. rewrite Heta. eexists. split; [done|].
  set (rest := Rmax 0 (120 - (now - stopArrivalTime b) / 1000)).
  assert (0 <= rest <= 120) as Hrest.
  { unfold rest, Rmax. destruct (Rle_dec _ _); lra. }
  split.
  - rewrite <- (round_IZR 0). apply round_mono. lra.
  - rewrite <- (round_IZR 2). apply round_mono. lra.
Qed.

End BusEtaFacts.

(** * The tax estimator *)

Section Tax.

Import TaxEase.

Local Open Scope R_scope.

(** The tax before rounding, slab by slab. *)
Lemma calculateTax_raw (income : R) :
  ∃ tax, calculateTax income = JS.round tax ∧
         (income <= 500000 → tax = income * 0.01) ∧
         (500000 < income <= 1000000 → tax = 5000 + (income - 500000) * 0.10) ∧
         (1000000 < income <= 2000000 → tax = 55000 + (income - 1000000) * 0.20) ∧
         (2000000 < income → tax = 255000 + (income - 2000000) * 0.30).
Proof.
  unfold calculateTax.
  destruct (Rle_dec income 500000); [|destruct (Rle_dec income 1000000);
    [|destruct (Rle_dec income 2000000)]];
    eexists; (split; [reflexivity|]); repeat split; intros; lra.
Qed.

(** Between two incomes the raw tax grows, by at most 30% of the
    difference. *)
Lemma calculateTax_raw_step (income d : R) :
  0 <= d →
  ∃ t1 t2, calculateTax income = JS.round t1 ∧
           calculateTax (income + d) = JS.round t2 ∧
           t1 <= t2 <= t1 + 0.30 * d.
Proof.
  intros Hd.
  destruct (calculateTax_raw income) as (t1 & Ht1 & Ha1 & Ha2 & Ha3 & Ha4).
  destruct (calculateTax_raw (income + d)) as (t2 & Ht2 & Hb1 & Hb2 & Hb3 & Hb4).
  exists t1, t2. split; [done|]. split; [done|].
  destruct (Rle_dec income 500000);
    [|destruct (Rle_dec income 1000000); [|destruct (Rle_dec income 2000000)]];
  (destruct (Rle_dec (income + d) 500000);
    [|destruct (Rle_dec (income + d) 1000000);
      [|destruct (Rle_dec (income + d) 2000000)]]);
  try lra;
  repeat match goal with
         | H : _ → _ = _ |- _ => first [rewrite H by lra | clear H]
         end; lra.
Qed.

Lemma calculateTax_le (income1 income2 : R) :
  income1 <= income2 → (calculateTax income1 <= calculateTax income2)%Z.
Proof.
  intros Hle.
  destruct (calculateTax_raw_step income1 (income2 - income1))
    as (t1 & t2 & -> & Ht2 & Hraw); [lra|].
  replace (income1 + (income2 - income1)) with income2 in Ht2 by lra.
  rewrite Ht2. apply round_mono. lra.
Qed.

Lemma calculateTax_nonneg (income : R) :
  0 <= income → (0 <= calculateTax income)%Z.
Proof.
  intros Hpos.
  replace 0%Z with (calculateTax 0); [by apply calculateTax_le|].
  unfold calculateTax. destruct (Rle_dec 0 500000); [|lra].
  rewrite Rmult_0_l. apply round_IZR.
Qed.

(** X18.  A higher income never gives a lower tax, and there is no cliff
    between the slabs: of a raise [d], the tax takes at most 30% (and one
    rupee of rounding). *)
Theorem calculateTax_monotone (income d : R) :
  0 <= d →
  (calculateTax income <= calculateTax (income + d))%Z ∧
  IZR (calculateTax (income + d)) - IZR (calculateTax income) < 0.30 * d + 1.
Proof.
  intros Hd.
  destruct (calculateTax_raw_step income d Hd) as (t1 & t2 & -> & -> & Hraw).
  split; [apply round_mono; lra|].
  pose proof (round_bounds t1). pose proof (round_bounds t2). lra.
Qed.

(** X19.  On an income that is not negative the tax is between 1% and
    30% of the income (each rounded to the rupee). *)
Theorem calculateTax_effective_rate (income : R) :
  0 <= income →
  (JS.round (income * 0.01) <= calculateTax income <= JS.round (income * 0.30))%Z.
Proof.
  intros Hpos.
  destruct (calculateTax_raw income) as (t & -> & H1 & H2 & H3 & H4).
  assert (income * 0.01 <= t <= income * 0.30) as Hraw.
  { destruct (Rle_dec income 500000);
      [|destruct (Rle_dec income 1000000); [|destruct (Rle_dec income 2000000)]];
    repeat match goal with
           | H : _ → _ = _ |- _ => first [rewrite H by lra | clear H]
           end; lra. }
  split; apply round_mono; lra.
Qed.

(** X20.  The simulated penalty is 0 for a return that is not late, never
    negative, and grows with the income and with the days of delay (for
    an income and a delay that are not negative). *)
Theorem handleSimulate_monotone (income1 income2 days1 days2 : R) :
  0 <= income1 <= income2 →
  0 <= days1 <= days2 →
  handleSimulate income1 0 = 0%Z ∧
  (0 <= handleSimulate income1 days1 <= handleSimulate income2 days2)%Z.
Proof.
  intros Hincome Hdays. unfold handleSimulate, calculatePenalty.
  pose proof (calculateTax_nonneg income1 ltac:(lra)) as Htax1.
  pose proof (calculateTax_le income1 income2 ltac:(lra)) as Hmono.
  apply IZR_le in Htax1, Hmono.
  split; [|split].
  - rewrite Rmult_0_r. apply round_IZR.
  - rewrite <- (round_IZR 0). apply round_mono. nra.
  - apply round_mono. nra.
Qed.

End Tax.

(** * Further properties of the two estimators *)

Section EtaSegments.

Import SmartBus.

Local Open Scope R_scope.


End EtaSegments.

Section BusEtaSign.

Import SmartBusNepal.

Local Open Scope R_scope.

Variables (stopsData : list Stop) (b : Bus).

Hypothesis speed_positive : 0 < speed b.
Hypothesis stops_on_globe : ∀ s, s ∈ stopsData → -90 <= lat s <= 90.





End BusEtaSign.

Section PauseAtStop.

Import SmartBusNepal.

Local Open Scope R_scope.

(** X23.  A moving bus that a frame finds within 100 metres of its next
    stop is put on that stop, and from then on pauses for two minutes:
    each later frame up to 120 seconds after the arrival leaves it as it
    is, and the first frame after that sends it off again, with
    [currentStopIndex] moved to the next index around the route. *)
Theorem updateBus_pause_after_arrival (arrival deltaTime random : R)
    (stopsData : list Stop) (v : Vehicle) (currentStop targetStop : Stop) :
  isAtStop (bus v) = false →
  findStop stopsData (stops (bus v) !! currentStopIndex (bus v))
    = Some currentStop →
  nextStop (bus v) = Some targetStop →
  calculateDistance (pos_lat (position (bus v))) (pos_lng (position (bus v)))
                    (lat targetStop) (lng targetStop) < 0.1 →
  let arrived := updateBus arrival deltaTime random stopsData v in
  position (bus arrived)
    = {| pos_lat := lat targetStop; pos_lng := lng targetStop |} ∧
  isAtStop (bus arrived) = true ∧
  (∀ later deltaTime' random',
     (later - arrival) / 1000 < 120 →
     updateBus later deltaTime' random' stopsData arrived = arrived) ∧
  (∀ later deltaTime' random',
     120 <= (later - arrival) / 1000 →
     let departed := updateBus later deltaTime' random' stopsData arrived in
     isAtStop (bus departed) = false ∧
     position (bus departed) = position (bus arrived) ∧
     currentStopIndex (bus departed)
     = ((currentStopIndex (bus v) + 1) mod length (stops (bus v)))%nat).
Proof.
  intros Hmoving Hcurrent Htarget Hnear arrived.
  assert (arrived =
            {| bus := {| id := id (bus v);
                         currentStopIndex := currentStopIndex (bus v);
                         position := {| pos_lat := lat targetStop;
                                        pos_lng := lng targetStop |};
                         nextStop := nextStop (bus v);
                         speed := speed (bus v); isAtStop := true;
                         stopArrivalTime := arrival; stops := stops (bus v) |};
               occupancy :=
                 Rmax 10 (Rmin 100 (occupancy v + (random * 20 - 10))) |})
    as Harrived.
  { unfold arrived, updateBus. rewrite Hmoving, Hcurrent, Htarget.
    destruct (Rlt_dec _ _); [done|contradiction]. }
  rewrite Harrived. split; [done|]. split; [done|]. split.
  - intros later deltaTime' random' Hearly.
    unfold updateBus, STOP_PAUSE_TIME. simpl.
    destruct (Rge_dec _ _); [lra|done].
  - intros later deltaTime' random' Hlate departed.
    unfold departed, updateBus, STOP_PAUSE_TIME. simpl.
    destruct (Rge_dec _ _); [done|lra].
Qed.

End PauseAtStop.

(** * Worked examples *)

Section WorkedExamples.

Import Examples.

Local Open Scope R_scope.


Lemma stopsABC_fare_rows (s : Stop) : s ∈ stopsABC → is_Some (faresABC !! name s).
Proof.
  unfold stopsABC. rewrite !elem_of_cons, elem_of_nil.
  intros [->|[->|[->|[]]]]; simpl; eauto.
Qed.

Lemma busStart_in_table (bus : SmartBus.Bus) :
  bus ∈ [busStart] →
  (SmartBus.index bus < length stopsABC)%nat ∧
  (SmartBus.nextIndex bus < length stopsABC)%nat.
Proof.
  rewrite elem_of_cons, elem_of_nil. intros [->|[]]. simpl. lia.
Qed.

Lemma calculateETA_busHalfway :
  SmartBus.calculateETA 3 stopsCity busHalfway (mkStop "B" 0 0.01) = Done 1%Z.
Proof.
  rewrite (calculateETA_done stopsCity _ 3 busHalfway
             (mkStop "A" 0 0) (mkStop "B" 0 0.01) 0 0); try done.
  rewrite segment_city_AB. f_equal. apply ceil_spec. simpl. lra.
Qed.

Lemma segment_takes_120_ticks_witness :
  SmartBus.ticks 120 stopsABC busStart =
    Some {| SmartBus.id := "A"; SmartBus.bus_lat := 0; SmartBus.bus_lng := 0;
            SmartBus.index := 1; SmartBus.nextIndex := 2;
            SmartBus.progress := 0; SmartBus.stopTimer := 0 |}.
Proof.
  apply (segment_takes_120_ticks stopsABC busStart (mkStop "A" 0 0)
           (mkStop "B" 0 1)); done.
Defined.


Lemma position_interpolated_between_stops_witness :
  Some (SmartBus.position busHalfwayNext)
  = SmartBus.interpolated stopsCity busHalfwayNext.
Proof.
  apply (position_interpolated_between_stops stopsCity busHalfway).
  - unfold SmartBus.interpolated, SmartBus.position. simpl. do 2 f_equal; lra.
  - simpl. intros [_ Hwrap]. lra.
  - apply tick_busHalfway.
Defined.

Lemma eta_steady_while_dwelling_witness :
  ∃ bus', SmartBus.tick stopsABC busDwelling = Some bus' ∧
          SmartBus.calculateETA 3 stopsABC bus' (mkStop "C" 1 1)
          = SmartBus.calculateETA 3 stopsABC busDwelling (mkStop "C" 1 1).
Proof.
  apply (eta_steady_while_dwelling stopsABC (mkStop "C" 1 1) 3 busDwelling).
  simpl. lia.
Defined.


Lemma eta_nonnegative_witness : (0 <= 1)%Z.
Proof.
  apply (eta_nonnegative stopsCity (mkStop "B" 0 0.01) 3 busHalfway 1).
  - simpl. lra.
  - apply calculateETA_busHalfway.
Defined.

Lemma eta_ignores_target_position_witness :
  SmartBus.calculateETA 3 (<[2%nat := stopMoved]> stopsABC) busStart (mkStop "C" 1 1)
  = SmartBus.calculateETA 3 stopsABC busStart (mkStop "C" 1 1).
Proof.
  apply (eta_ignores_target_position stopsABC (mkStop "C" 1 1) 3 busStart 2
           (mkStop "C" 1 1) stopMoved); done.
Defined.


Lemma buyTicket_goes_through_witness :
  ∃ ticket,
    SmartBus.buyTicket 3 1700000000000 stopsABC faresABC None "B" [busStart]
      = Done ticket ∧
    SmartBus.findNearestStop stopsABC None = Some (SmartBus.ticket_from ticket) ∧
    (∃ s, s ∈ stopsABC ∧ SmartBus.ticket_from ticket = name s) ∧
    SmartBus.ticket_to ticket = "B" ∧
    SmartBus.ticket_fare ticket
      = faresABC !! SmartBus.ticket_from ticket ≫= (.!! "B") ∧
    length (SmartBus.ticket_eta ticket) = 1%nat.
Proof.
  apply (buyTicket_goes_through 1700000000000 stopsABC faresABC None "B"
           [busStart]).
  - done.
  - apply stopsABC_fare_rows.
  - apply busStart_in_table.
Defined.


Lemma calculateFare_direction_witness :
  SmartBusNepal.calculateFare faresAB "A" "B"
  = SmartBusNepal.calculateFare faresAB "B" "A".
Proof.
  apply (calculateFare_direction faresAB "A" "B"); [done|done|].
  rewrite faresAB_direct, faresAB_reverse. done.
Defined.

Lemma updateBus_waiting_witness :
  SmartBusNepal.updateBus 60000 0.016 0.5 stopsABC vehicleRing = vehicleRing.
Proof.
  apply (updateBus_waiting 60000 0.016 0.5 stopsABC vehicleRing); [done|].
  simpl. lra.
Defined.

Lemma updateBus_occupancy_witness :
  0 <= SmartBusNepal.occupancy
         (SmartBusNepal.updateBus 60000 0.016 0.5 stopsABC vehicleReaching)
    <= 100.
Proof.
  apply (updateBus_occupancy 60000 0.016 0.5 stopsABC vehicleReaching).
  simpl. lra.
Defined.

Lemma updateBus_index_witness :
  (SmartBusNepal.currentStopIndex
     (SmartBusNepal.bus
        (SmartBusNepal.updateBus 120000 0.016 0.5 stopsABC vehicleRing))
   < 3)%nat.
Proof.
  destruct (updateBus_index 120000 0.016 0.5 stopsABC vehicleRing)
    as (Hstops & Hidx & _); [simpl; lia|].
  by rewrite Hstops in Hidx.
Defined.

Lemma calculateBusETA_waiting_at_target_witness :
  ∃ e, SmartBusNepal.calculateBusETA 3 60000 stopsABC busRing "A" = Done e ∧
       (0 <= e <= 2)%Z.
Proof.
  apply (calculateBusETA_waiting_at_target 3 60000 stopsABC busRing "A");
    try done.
  simpl. lra.
Defined.


Lemma updateBus_pause_after_arrival_witness :
  SmartBusNepal.position
    (SmartBusNepal.bus
       (SmartBusNepal.updateBus 60000 0.016 0.5 stopsABC vehicleReaching))
  = {| pos_lat := 0; pos_lng := 1 |}.
Proof.
  apply (updateBus_pause_after_arrival 60000 0.016 0.5 stopsABC vehicleReaching
           (mkStop "A" 0 0) (mkStop "B" 0 1)); try done.
  simpl. rewrite calculateDistance_self. lra.
Defined.

Lemma calculateTax_monotone_witness :
  (TaxEase.calculateTax 400000 <= TaxEase.calculateTax (400000 + 200000))%Z.
Proof.
  apply (calculateTax_monotone 400000 200000). lra.
Defined.

Lemma calculateTax_effective_rate_witness :
  (JS.round (750000 * 0.01) <= TaxEase.calculateTax 750000
   <= JS.round (750000 * 0.30))%Z.
Proof.
  apply (calculateTax_effective_rate 750000). lra.
Defined.

Lemma handleSimulate_monotone_witness :
  TaxEase.handleSimulate 750000 0 = 0%Z.
Proof.
  apply (handleSimulate_monotone 750000 900000 10 30); lra.
Defined.

End WorkedExamples.
